(** * Contact form API endpoint: a model of [POST] and its properties

    The endpoint is one asynchronous handler, [POST], that keeps a
    process-wide [rateLimitStore], classifies spam, validates the form
    fields and the attachment, records the accepted submission in the
    store and forwards it to a webhook.  This file embeds the handler as
    Rocq functions over explicit state and proves what it does. *)

From Stdlib Require Import ZArith Ascii String List Bool Lia.
From stdpp Require Import gmap strings list fin_maps pretty.

Open Scope Z_scope.

(** ** JavaScript strings

    A string is modelled as a sequence of 8-bit code units (the Latin-1
    range of the UTF-16 code units of a JS string). *)

Module JsString.

Definition code (c : ascii) : N := N_of_ascii c.

(** [String.prototype.toLowerCase] on one code unit: A-Z and the Latin-1
    capitals (all of 0xC0-0xDE but the multiplication sign 0xD7) move up
    by 32, everything else is kept. *)
Definition lower_char (c : ascii) : ascii :=
  let n := code c in
  if ((65 <=? n) && (n <=? 90))%N
     || ((192 <=? n) && (n <=? 222) && negb (n =? 215))%N
  then ascii_of_N (n + 32) else c.

Fixpoint toLowerCase (s : string) : string :=
  match s with
  | EmptyString => EmptyString
  | String c s' => String (lower_char c) (toLowerCase s')
  end.

(** [t.startsWith(k)] *)
Fixpoint startsWith (k t : string) : bool :=
  match k, t with
  | EmptyString, _ => true
  | String a k', String b t' => Ascii.eqb a b && startsWith k' t'
  | String _ _, EmptyString => false
  end.

(** [t.includes(k)]: [k] occurs at some position of [t]. *)
Fixpoint includes (t k : string) : bool :=
  startsWith k t ||
  match t with
  | EmptyString => false
  | String _ t' => includes t' k
  end.

(** The class [\s] of a regular expression, restricted to the modelled
    code units: TAB, LF, VT, FF, CR, space and the no-break space. *)
Definition is_space (c : ascii) : bool :=
  let n := code c in
  (((9 <=? n) && (n <=? 13)) || (n =? 32) || (n =? 160))%N.

End JsString.

(** ** Regular expressions

    The handler tests the e-mail address against a regular expression
    literal.  Expressions are matched with Brzozowski derivatives; [test]
    is the match of an expression anchored by [^] and [$]. *)

Module Regex.

Inductive regex : Type :=
| Fail                                  (* matches nothing *)
| Eps                                   (* the empty string *)
| Class (p : ascii -> bool)             (* one code unit of a class *)
| Seq (r1 r2 : regex)
| Alt (r1 r2 : regex)
| Star (r : regex).

(** [r+] *)
Definition Plus (r : regex) : regex := Seq r (Star r).
Definition Chr (c : ascii) : regex := Class (Ascii.eqb c).

Fixpoint nullable (r : regex) : bool :=
  match r with
  | Fail => false
  | Eps => true
  | Class _ => false
  | Seq r1 r2 => nullable r1 && nullable r2
  | Alt r1 r2 => nullable r1 || nullable r2
  | Star _ => true
  end.

Fixpoint deriv (c : ascii) (r : regex) : regex :=
  match r with
  | Fail => Fail
  | Eps => Fail
  | Class p => if p c then Eps else Fail
  | Seq r1 r2 =>
      if nullable r1
      then Alt (Seq (deriv c r1) r2) (deriv c r2)
      else Seq (deriv c r1) r2
  | Alt r1 r2 => Alt (deriv c r1) (deriv c r2)
  | Star r' => Seq (deriv c r') (Star r')
  end.

Fixpoint test (r : regex) (s : string) : bool :=
  match s with
  | EmptyString => nullable r
  | String c s' => test (deriv c r) s'
  end.

End Regex.

(** ** Form data *)

(** A [File] of the form: its declared MIME type and its size in bytes. *)
Record File : Type := mkFile {
  f_name : string;
  f_type : string;
  f_size : Z
}.

(** An entry of a [FormData] is a string or a file. *)
Inductive FormDataEntryValue : Type :=
| FString (s : string)
| FFile (f : File).

(** The parsed body: the entries in the order they were sent. *)
Definition FormData : Type := list (string * FormDataEntryValue).

(** [formData.get(name)]: the first entry of that name, or [null]. *)
Fixpoint formData_get (fd : FormData) (name : string)
  : option FormDataEntryValue :=
  match fd with
  | [] => None
  | (k, v) :: fd' => if String.eqb k name then Some v else formData_get fd' name
  end.

(** The value of a field of [data]: an entry, or [None] for [null].  The
    casts [as string] and [as File] of the source do nothing at run time. *)
Definition JsValue : Type := option FormDataEntryValue.

(** Truthiness: [null] and the empty string are falsy, a non-empty string
    and any object are truthy. *)
Definition truthy (v : JsValue) : bool :=
  match v with
  | None => false
  | Some (FString s) => negb (String.eqb s "")
  | Some (FFile _) => true
  end.

(** The string a value turns into inside a template literal or when a
    regular expression is tested on it. *)
Definition toString (v : JsValue) : string :=
  match v with
  | None => "null"
  | Some (FString s) => s
  | Some (FFile _) => "[object File]"
  end.

(** [v || d] used as a string. *)
Definition or_else (v : JsValue) (d : string) : string :=
  if truthy v then toString v else d.

Record ContactFormData : Type := mkData {
  service : JsValue;
  timeline : JsValue;
  company : JsValue;
  projectSize : JsValue;
  message : JsValue;
  firstName : JsValue;
  lastName : JsValue;
  email : JsValue;
  phone : JsValue;
  contactMethod : JsValue;
  attachment : JsValue;
  website : JsValue   (* honeypot field *)
}.

(** The object [data] built from the parsed body. *)
Definition parse_data (fd : FormData) : ContactFormData :=
  {| service := formData_get fd "service";
     timeline := formData_get fd "timeline";
     company := formData_get fd "company";
     projectSize := formData_get fd "projectSize";
     message := formData_get fd "message";
     firstName := formData_get fd "firstName";
     lastName := formData_get fd "lastName";
     email := formData_get fd "email";
     phone := formData_get fd "phone";
     contactMethod := formData_get fd "contactMethod";
     attachment := formData_get fd "attachment";
     website := formData_get fd "website" |}.

(** ** Responses and effects *)

(** The JSON body [{ success, message?, error? }]. *)
Record ResponseBody : Type := mkBody {
  r_success : bool;
  r_message : option string;
  r_error : option string
}.

Record Response : Type := mkResponse {
  r_body : ResponseBody;
  r_status : Z;
  r_headers : list (string * string)
}.

Definition json_response (b : ResponseBody) (st : Z) : Response :=
  {| r_body := b; r_status := st;
     r_headers := [("Content-Type", "application/json")] |}.

Definition failure (err : string) (st : Z) : Response :=
  json_response
    {| r_success := false; r_message := None; r_error := Some err |} st.

(** The five ways the handler answers. *)
Definition too_many_response : Response :=
  failure "Too many submissions. Please try again later." 429.

Definition spam_response : Response :=
  json_response
    {| r_success := true; r_message := None; r_error := None |} 200.

Definition missing_fields_response : Response :=
  failure "Missing required fields" 400.

Definition invalid_email_response : Response :=
  failure "Invalid email address" 400.

Definition invalid_file_type_response : Response :=
  failure "Invalid file type. Only PDF, DOC, DOCX, XLS, XLSX, ZIP allowed." 400.

Definition file_too_large_response : Response :=
  failure "File too large. Maximum size is 10MB." 400.

Definition success_response : Response :=
  json_response
    {| r_success := true;
       r_message := Some "Your message has been sent successfully. We'll get back to you within 24 hours.";
       r_error := None |} 200.

Definition unexpected_error_response : Response :=
  failure "An unexpected error occurred. Please try again or contact us directly." 500.

(** The body of the webhook call. *)
Record WebhookPayload : Type := mkPayload {
  wp_subject : string;
  wp_body : string;
  wp_data : ContactFormData;
  wp_timestamp : string;
  wp_ip : string
}.

(** An argument of [console.log] or [console.error]. *)
Inductive LogArg : Type :=
| LStr (s : string)
| LNum (n : Z)
| LThrown.           (* the value caught by a [catch] *)

(** What the handler does to the outside: console output and the single
    [fetch] of the webhook. *)
Inductive Effect : Type :=
| ConsoleLog (args : list LogArg)
| ConsoleError (args : list LogArg)
| Fetch (url : string) (payload : WebhookPayload).

Definition is_fetch (e : Effect) : bool :=
  match e with
  | Fetch _ _ => true
  | _ => false
  end.

(** The webhook calls among the effects of a run. *)
Definition webhook_calls (es : list Effect) : list Effect :=
  List.filter is_fetch es.

(** ** The rate-limit store

    [rateLimitStore] is a [Map] from the client address to an object
    [{ count, resetTime }].  The map holds references: the object the
    handler reads with [get] is the stored one, and writing its fields
    changes what the map shows.  Objects live in [heap], addressed by
    their index; the map sends a key to an address.

    [count] and [resetTime] are JS numbers that only ever hold integers far
    below 2^53 ([Date.now()] plus one hour, and a counter), so they are
    integers here. *)

Record RateLimit : Type := mkRateLimit {
  count : Z;
  resetTime : Z
}.

#[global] Instance RateLimit_inhabited : Inhabited RateLimit :=
  populate {| count := 0; resetTime := 0 |}.

Record Store : Type := mkStore {
  heap : list RateLimit;
  rateLimitStore : gmap string nat
}.

(** [new Map()] *)
Definition empty_store : Store := {| heap := []; rateLimitStore := ∅ |}.

(** What [rateLimitStore.get(ip)] shows: the fields of the stored object. *)
Definition record_of (st : Store) (ip : string) : option RateLimit :=
  l ← rateLimitStore st !! ip; heap st !! l.


(** ** The handler *)

Definition spamKeywords : list string :=
  ["casino"; "viagra"; "porn"; "gambling"; "crypto mining"].

(** [[^\s@]] *)
Definition not_space_at (c : ascii) : bool :=
  negb (JsString.is_space c || Ascii.eqb c "@").

(** [/^[^\s@]+@[^\s@]+\.[^\s@]+$/] *)
Definition emailRegex : Regex.regex :=
  Regex.Seq (Regex.Plus (Regex.Class not_space_at))
    (Regex.Seq (Regex.Chr "@")
       (Regex.Seq (Regex.Plus (Regex.Class not_space_at))
          (Regex.Seq (Regex.Chr ".")
             (Regex.Plus (Regex.Class not_space_at))))).

Definition allowedTypes : list string :=
  ["application/pdf";
   "application/msword";
   "application/vnd.openxmlformats-officedocument.wordprocessingml.document";
   "application/vnd.ms-excel";
   "application/vnd.openxmlformats-officedocument.spreadsheetml.sheet";
   "application/zip"].

(** [allowedTypes.includes(t)] *)
Definition array_includes (l : list string) (t : string) : bool :=
  existsb (String.eqb t) l.

(** What a resolved or rejected [fetch] gives. *)
Inductive FetchResult : Type :=
| FetchRejects
| FetchResolves (status : Z).

(** [webhookResponse.ok] *)
Definition response_ok (status : Z) : bool :=
  (200 <=? status) && (status <=? 299).

(** A request together with all the handler reads from its surroundings
    while serving it. *)
Record Request : Type := mkRequest {
  clientAddress : option string;   (* [None]: undefined *)
  now : Z;                         (* [Date.now()] at the first line *)
  formData : option FormData;      (* [None]: [request.formData()] rejects *)
  webhookUrl : option string;      (* [process.env.CONTACT_FORM_WEBHOOK_URL] *)
  localeTime : string;             (* [new Date().toLocaleString(...)] *)
  isoTime : string;                (* [new Date().toISOString()] *)
  fetchResult : FetchResult
}.

(** [s || d] for an optional string. *)
Definition str_or (s : option string) (d : string) : string :=
  match s with
  | Some x => if String.eqb x "" then d else x
  | None => d
  end.

(** What the handler holds on to across [await request.formData()]: the
    key and the reference [rateLimit]. *)
Record Pending : Type := mkPending {
  clientIP : string;
  rateLimit : nat
}.

Definition window : Z := 3600000.

(** Lines 38-56: everything that runs before the first [await].  A record
    found in the map is used through its reference, so the reset of an
    expired record is a write to the stored object; a record that is not
    found is a new object that the map does not hold yet.  The map only
    ever holds references to allocated objects ([well_formed] below), so
    the default of [!!!] is never what is read. *)
Definition POST_gate (st : Store) (addr : option string) (now : Z)
  : Store * (Response + Pending) :=
  let clientIP := str_or addr "unknown" in
  let '(hp, rateLimit) :=
    match rateLimitStore st !! clientIP with
    | Some l => (heap st, l)
    | None => (heap st ++ [{| count := 0; resetTime := now + window |}],
               length (heap st))
    end in
  let hp :=
    if now >? resetTime (hp !!! rateLimit)
    then <[rateLimit := {| count := 0; resetTime := now + window |}]> hp
    else hp in
  let st := {| heap := hp; rateLimitStore := rateLimitStore st |} in
  if count (hp !!! rateLimit) >=? 5
  then (st, inl too_many_response)
  else (st, inr {| clientIP := clientIP; rateLimit := rateLimit |}).

(** The line feed of the template literals. *)
Definition nl : string := String (ascii_of_nat 10) EmptyString.

(** [data.attachment && data.attachment.size > 0]: only a file has a
    [size]; on a string it is undefined and the comparison is false. *)
Definition has_attachment (data : ContactFormData) : bool :=
  match attachment data with
  | Some (FFile f) => f_size f >? 0
  | _ => false
  end.

Definition emailSubject (data : ContactFormData) : string :=
  "New Contact Form Submission - " +:+ toString (service data).

(** The template of lines 157-180 after [trim()]: the text starts and ends
    with fixed words, so trimming removes exactly the line feed before the
    first line and the line feed and indentation after the last. *)
Definition emailBody (data : ContactFormData) (ip time : string) : string :=
  "New contact form submission received:" +:+ nl +:+
  nl +:+
  "CONTACT INFORMATION:" +:+ nl +:+
  "- Name: " +:+ toString (firstName data) +:+ " " +:+ toString (lastName data) +:+ nl +:+
  "- Email: " +:+ toString (email data) +:+ nl +:+
  "- Phone: " +:+ or_else (phone data) "Not provided" +:+ nl +:+
  "- Company: " +:+ or_else (company data) "Not provided" +:+ nl +:+
  "- Preferred Contact: " +:+ toString (contactMethod data) +:+ nl +:+
  nl +:+
  "PROJECT DETAILS:" +:+ nl +:+
  "- Service: " +:+ toString (service data) +:+ nl +:+
  "- Timeline: " +:+ or_else (timeline data) "Not specified" +:+ nl +:+
  "- Project Size: " +:+ or_else (projectSize data) "Not specified" +:+ nl +:+
  "- Message: " +:+ toString (message data) +:+ nl +:+
  nl +:+
  "METADATA:" +:+ nl +:+
  "- Submission Time: " +:+ time +:+ " IST" +:+ nl +:+
  "- IP Address: " +:+ ip +:+ nl +:+
  "- Has Attachment: " +:+ (if has_attachment data then "Yes" else "No") +:+ nl +:+
  nl +:+
  "---" +:+ nl +:+
  "This email was sent from the Ritesource & eExperts contact form.".

(** [`${data.message} ${data.company || ''} ${data.firstName}
    ${data.lastName}`] *)
Definition content (data : ContactFormData) : string :=
  toString (message data) +:+ " " +:+ or_else (company data) "" +:+ " " +:+
  toString (firstName data) +:+ " " +:+ toString (lastName data).

(** [content.toLowerCase()] *)
Definition contentToCheck (data : ContactFormData) : string :=
  JsString.toLowerCase (content data).

(** [spamKeywords.some(keyword => contentToCheck.includes(keyword))] *)
Definition containsSpam (data : ContactFormData) : bool :=
  existsb (λ keyword, JsString.includes (contentToCheck data) keyword)
    spamKeywords.

(** The required-field test of line 85. *)
Definition missing_required (data : ContactFormData) : bool :=
  negb (truthy (service data)) || negb (truthy (message data))
  || negb (truthy (firstName data)) || negb (truthy (lastName data))
  || negb (truthy (email data)).

Definition maxFileSize : Z := 10 * 1024 * 1024.

(** Lines 119-149: the response the file validation returns early with,
    if any. *)
Definition file_validation (data : ContactFormData) : option Response :=
  match attachment data with
  | Some (FFile f) =>
      if f_size f >? 0 then
        if negb (array_includes allowedTypes (f_type f))
        then Some invalid_file_type_response
        else if f_size f >? maxFileSize
        then Some file_too_large_response
        else None
      else None
  | _ => None
  end.

(** Lines 185-252: the inner [try] that notifies the webhook.  Whatever
    [fetch] does is caught or only logged. *)
Definition dispatch (data : ContactFormData) (ip : string) (rq : Request)
  : list Effect :=
  let body := emailBody data ip (localeTime rq) in
  let development_log :=
    [ConsoleLog [LStr "=== NEW CONTACT FORM SUBMISSION ==="];
     ConsoleLog [LStr body];
     ConsoleLog [LStr "====================================="]] in
  match webhookUrl rq with
  | Some url =>
      if negb (String.eqb url "") then
        let webhookPayload :=
          {| wp_subject := emailSubject data;
             wp_body := body;
             wp_data := data;
             wp_timestamp := isoTime rq;
             wp_ip := ip |} in
        Fetch url webhookPayload ::
        match fetchResult rq with
        | FetchRejects => [ConsoleError [LStr "Email sending failed:"; LThrown]]
        | FetchResolves status =>
            if response_ok status then []
            else [ConsoleError [LStr "Webhook failed:"; LNum status]]
        end
      else development_log
  | None => development_log
  end.

(** Lines 151-153: [rateLimit.count++] through the reference, then
    [rateLimitStore.set(clientIP, rateLimit)]. *)
Definition update_rate_limit (st : Store) (p : Pending) : Store :=
  let r := heap st !!! rateLimit p in
  {| heap := <[rateLimit p := {| count := count r + 1;
                                 resetTime := resetTime r |}]> (heap st);
     rateLimitStore := <[clientIP p := rateLimit p]> (rateLimitStore st) |}.

(** Lines 58-271: everything from the first [await] on, run when the body
    has been read (or reading it has failed). *)
Definition POST_body (st : Store) (p : Pending) (rq : Request)
  : Store * Response * list Effect :=
  match formData rq with
  | None =>
      (st, unexpected_error_response,
       [ConsoleError [LStr "Contact form error:"; LThrown]])
  | Some fd =>
      let data := parse_data fd in
      if truthy (website data) then
        (st, spam_response,
         [ConsoleLog [LStr "Spam detected via honeypot:"; LStr (clientIP p)]])
      else if missing_required data then
        (st, missing_fields_response, [])
      else if negb (Regex.test emailRegex (toString (email data))) then
        (st, invalid_email_response, [])
      else if containsSpam data then
        (st, spam_response,
         [ConsoleLog [LStr "Spam detected via keywords:"; LStr (clientIP p)]])
      else
        match file_validation data with
        | Some resp => (st, resp, [])
        | None =>
            (update_rate_limit st p, success_response,
             dispatch data (clientIP p) rq)
        end
  end.

(** The handler run from its first line to its response without any other
    request served in between. *)
Definition POST (st : Store) (rq : Request)
  : Store * Response * list Effect :=
  match POST_gate st (clientAddress rq) (now rq) with
  | (st', inl resp) => (st', resp, [])
  | (st', inr p) => POST_body st' p rq
  end.

(** ** Runs of the handler *)

(** The key a request is counted under. *)
Definition client_key (rq : Request) : string :=
  str_or (clientAddress rq) "unknown".

(** A request that reaches the end of the pipeline once it is past the
    gate: the body parses, the honeypot is empty, the required fields are
    there, the address matches, no keyword occurs and the attachment, if
    any, is allowed. *)
Definition valid_submission (rq : Request) : bool :=
  match formData rq with
  | None => false
  | Some fd =>
      let data := parse_data fd in
      negb (truthy (website data))
      && negb (missing_required data)
      && Regex.test emailRegex (toString (email data))
      && negb (containsSpam data)
      && match file_validation data with None => true | Some _ => false end
  end.

(** Requests served one after the other, each to its response. *)
Fixpoint run (st : Store) (rqs : list Request) : Store * list Response :=
  match rqs with
  | [] => (st, [])
  | rq :: rqs' =>
      let '(st1, resp, _) := POST st rq in
      let '(st2, resps) := run st1 rqs' in
      (st2, resp :: resps)
  end.

(** The stores that requests served one at a time lead to. *)
Inductive reachable : Store -> Prop :=
| reachable_empty : reachable empty_store
| reachable_POST st rq : reachable st -> reachable (POST st rq).1.1.

(** Every key of the map refers to an allocated object, and no two keys
    refer to the same one. *)
Definition well_formed (st : Store) : Prop :=
  (∀ ip l, rateLimitStore st !! ip = Some l -> (l < length (heap st))%nat)
  ∧ (∀ ip1 ip2 l, rateLimitStore st !! ip1 = Some l ->
                  rateLimitStore st !! ip2 = Some l -> ip1 = ip2).

(** The reference a handler holds is an allocated object, and the only key
    that may refer to it is the handler's own. *)
Definition pending_ok (st : Store) (p : Pending) : Prop :=
  (rateLimit p < length (heap st))%nat
  ∧ (∀ ip, rateLimitStore st !! ip = Some (rateLimit p) -> ip = clientIP p).

(** *** Handlers that overlap

    The handler gives up control at [await request.formData()], between
    the gate and the update of the counter, so another request can be
    taken up while the body of the first is still being read.  A
    configuration is the store and the handlers that wait for their
    body. *)
Record Config : Type := mkConfig {
  shared : Store;
  inflight : list Pending
}.

Definition initial : Config := {| shared := empty_store; inflight := [] |}.

(** [serves c resps]: the process can get to configuration [c], having
    given the responses [resps] so far.  A request is taken up at any time
    and runs to its first [await]; a handler that waits is picked up again
    at any later time, when its body has been read, and runs to its
    response. *)
Inductive serves : Config -> list Response -> Prop :=
| serves_initial : serves initial []
| serves_rejected c resps addr t st' resp :
    serves c resps ->
    POST_gate (shared c) addr t = (st', inl resp) ->
    serves {| shared := st'; inflight := inflight c |} (resps ++ [resp])
| serves_suspended c resps addr t st' p :
    serves c resps ->
    POST_gate (shared c) addr t = (st', inr p) ->
    serves {| shared := st'; inflight := p :: inflight c |} resps
| serves_resumed c resps i p rq st' resp es :
    serves c resps ->
    inflight c !! i = Some p ->
    POST_body (shared c) p rq = (st', resp, es) ->
    serves {| shared := st'; inflight := delete i (inflight c) |}
           (resps ++ [resp]).

(** ** Statements read off the specification, for comparison *)

(** The record a request from [ip] at time [t] is said to leave behind
    when the counter is advanced as it enters the pipeline: created with
    count 1, reset to count 1, or incremented. *)
Definition advanced (before : option RateLimit) (t : Z) : RateLimit :=
  match before with
  | None => {| count := 1; resetTime := t + window |}
  | Some r =>
      if t >? resetTime r
      then {| count := 1; resetTime := t + window |}
      else {| count := count r + 1; resetTime := resetTime r |}
  end.

(** A request the gate lets through: no record, an expired record, or a
    count below the threshold. *)
Definition eligible (st : Store) (rq : Request) : Prop :=
  rateLimitStore st !! client_key rq = None
  ∨ ∃ r, record_of st (client_key rq) = Some r
         ∧ (now rq > resetTime r ∨ count r < 5).

(** The record the gate alone leaves behind: an expired one is reset, any
    other is kept, none is created. *)
Definition entered (before : option RateLimit) (t : Z) : option RateLimit :=
  match before with
  | None => None
  | Some r =>
      Some (if t >? resetTime r
            then {| count := 0; resetTime := t + window |}
            else r)
  end.

(** C2 as it is stated: every request the gate lets through has its
    counter advanced on entry, whatever becomes of it later. *)
Definition counter_advanced_on_entry : Prop :=
  ∀ st rq,
    reachable st ->
    eligible st rq ->
    r_status (POST st rq).1.2 ≠ 429
    ∧ record_of (POST st rq).1.1 (client_key rq)
      = Some (advanced (record_of st (client_key rq)) (now rq)).

(** A request the gate lets through. *)
Definition passes_gate (st : Store) (rq : Request) : Prop :=
  ∃ st1 p, POST_gate st (clientAddress rq) (now rq) = (st1, inr p).

(** A parsed submission that one of the two spam checks catches: the
    honeypot is filled in, or the submission gets through the validation
    and a keyword occurs in its content. *)
Definition spam_classified (rq : Request) : bool :=
  match formData rq with
  | None => false
  | Some fd =>
      let data := parse_data fd in
      truthy (website data)
      || (negb (missing_required data)
          && Regex.test emailRegex (toString (email data))
          && containsSpam data)
  end.

(** [word] occurs in [text]. *)
Definition occurs (word text : string) : Prop :=
  ∃ pre post, text = pre +:+ word +:+ post.

(** The same request with another outcome of the webhook call. *)
Definition with_fetch (rq : Request) (outcome : FetchResult) : Request :=
  {| clientAddress := clientAddress rq;
     now := now rq;
     formData := formData rq;
     webhookUrl := webhookUrl rq;
     localeTime := localeTime rq;
     isoTime := isoTime rq;
     fetchResult := outcome |}.

(** A parsed submission that gets as far as the file validation. *)
Definition reaches_file_validation (data : ContactFormData) : Prop :=
  truthy (website data) = false
  ∧ missing_required data = false
  ∧ Regex.test emailRegex (toString (email data)) = true
  ∧ containsSpam data = false.

(** [null] or the empty string. *)
Definition absent_or_empty (v : JsValue) : Prop :=
  v = None ∨ v = Some (FString "").


(** A client whose address is not available. *)
Definition anonymous (rq : Request) : Prop :=
  clientAddress rq = None ∨ clientAddress rq = Some "".

(** An identity that starts a new window with its next accepted
    submission: it has no record, or its record has expired. *)
Definition no_open_window (st : Store) (ip : string) (t : Z) : Prop :=
  rateLimitStore st !! ip = None
  ∨ ∃ r, record_of st ip = Some r ∧ resetTime r < t.

(** A field that is absent or empty once trimmed: [null], or a string of
    white space only. *)
Fixpoint all_space (s : string) : bool :=
  match s with
  | EmptyString => true
  | String c s' => JsString.is_space c && all_space s'
  end.

Definition blank (v : JsValue) : bool :=
  match v with
  | None => true
  | Some (FString s) => all_space s
  | Some (FFile _) => false
  end.

(** ** What a regular expression matches

    The strings an expression stands for, to compare [Regex.test] with. *)
Inductive matches : Regex.regex -> string -> Prop :=
| matches_eps : matches Regex.Eps ""
| matches_class p c : p c = true -> matches (Regex.Class p) (String c "")
| matches_seq r1 r2 s1 s2 :
    matches r1 s1 -> matches r2 s2 -> matches (Regex.Seq r1 r2) (s1 +:+ s2)
| matches_alt_l r1 r2 s : matches r1 s -> matches (Regex.Alt r1 r2) s
| matches_alt_r r1 r2 s : matches r2 s -> matches (Regex.Alt r1 r2) s
| matches_star_nil r : matches (Regex.Star r) ""
| matches_star_more r s1 s2 :
    matches r s1 -> matches (Regex.Star r) s2 ->
    matches (Regex.Star r) (s1 +:+ s2).

(** Every code unit of [s] is in the class [p]. *)
Fixpoint all_in (p : ascii -> bool) (s : string) : bool :=
  match s with
  | EmptyString => true
  | String c s' => p c && all_in p s'
  end.

(** A non-empty run of code units other than white space and [@]. *)
Definition address_part (s : string) : Prop :=
  s ≠ "" ∧ all_in not_space_at s = true.

(** A string of the form [a@b.c] with [a], [b] and [c] non-empty and free
    of white space and [@]. *)
Definition address_shaped (s : string) : Prop :=
  ∃ a b c, s = a +:+ "@" +:+ b +:+ "." +:+ c
           ∧ address_part a ∧ address_part b ∧ address_part c.

(** The responses the handler has. *)
Definition responses : list Response :=
  [too_many_response; spam_response; missing_fields_response;
   invalid_email_response; invalid_file_type_response;
   file_too_large_response; success_response; unexpected_error_response].

(** The identity of a request is turned away by the gate: it has a record
    whose window is open and whose count has reached the threshold. *)
Definition limited (st : Store) (rq : Request) : Prop :=
  ∃ r, record_of st (client_key rq) = Some r
       ∧ now rq <= resetTime r ∧ 5 <= count r.

(** The body of the one webhook call of an accepted submission. *)
Definition payload_of (rq : Request) (fd : FormData) : WebhookPayload :=
  {| wp_subject := emailSubject (parse_data fd);
     wp_body := emailBody (parse_data fd) (client_key rq) (localeTime rq);
     wp_data := parse_data fd;
     wp_timestamp := isoTime rq;
     wp_ip := client_key rq |}.

(** What is written to the console for an accepted submission when no
    webhook is configured. *)
Definition development_log (rq : Request) (fd : FormData) : list Effect :=
  [ConsoleLog [LStr "=== NEW CONTACT FORM SUBMISSION ==="];
   ConsoleLog [LStr (emailBody (parse_data fd) (client_key rq) (localeTime rq))];
   ConsoleLog [LStr "====================================="]].

(** Two requests whose handlers overlap: both pass the gate before either
    body has been read, then the first continues, then the second.  The
    result is the store and the two responses, or [None] when one of the
    two is turned away at the gate. *)
Definition overlapped (st : Store) (a b : Request)
  : option (Store * Response * Response) :=
  match POST_gate st (clientAddress a) (now a) with
  | (stA, inr pA) =>
      match POST_gate stA (clientAddress b) (now b) with
      | (stB, inr pB) =>
          let '(st1, respA, _) := POST_body stB pA a in
          let '(st2, respB, _) := POST_body st1 pB b in
          Some (st2, respA, respB)
      | _ => None
      end
  | _ => None
  end.

(** ** The service worker (public/sw.js)

    The worker answers the [fetch] events of the pages.  Its patterns are
    regular expressions tested anywhere in the URL; here each one is
    written as the expression of the whole URL that it amounts to, so that
    [Regex.test] decides it. *)

Module ServiceWorker.

(** Any code unit. *)
Definition any : Regex.regex := Regex.Class (λ _, true).

(** The characters of [w] one after the other. *)
Fixpoint lit (w : string) : Regex.regex :=
  match w with
  | EmptyString => Regex.Eps
  | String c w' => Regex.Seq (Regex.Chr c) (lit w')
  end.

(** [(?:w1|w2|...)] *)
Fixpoint one_of (ws : list string) : Regex.regex :=
  match ws with
  | [] => Regex.Fail
  | w :: ws' => Regex.Alt (lit w) (one_of ws')
  end.

(** [/^w/]: the URL starts with [w]. *)
Definition starts_with (w : string) : Regex.regex :=
  Regex.Seq (lit w) (Regex.Star any).

(** [/\.(?:e1|e2|...)$/]: the URL ends with a dot and one of the
    extensions. *)
Definition ends_with_extension (exts : list string) : Regex.regex :=
  Regex.Seq (Regex.Star any) (Regex.Seq (Regex.Chr ".") (one_of exts)).

Definition CACHE_NAME : string := "ritesource-eexperts-v1".
Definition OFFLINE_URL : string := "/offline.html".

Definition DYNAMIC_CACHE_PATTERNS : list Regex.regex :=
  [starts_with "https://fonts.googleapis.com/";
   starts_with "https://fonts.gstatic.com/";
   ends_with_extension ["png"; "jpg"; "jpeg"; "svg"; "gif"; "webp"; "ico"];
   ends_with_extension ["js"; "css"]].

(** [DYNAMIC_CACHE_PATTERNS.some(pattern => pattern.test(url))] *)
Definition shouldCache (url : string) : bool :=
  existsb (λ pattern, Regex.test pattern url) DYNAMIC_CACHE_PATTERNS.

(** What the handler reads of [event.request]. *)
Record FetchRequest : Type := mkFetchRequest {
  method : string;
  url : string;
  mode : string
}.

(** What the handler reads of a response, and its body. *)
Record NetResponse : Type := mkNetResponse {
  status : Z;
  type : string;
  body : string
}.

(** [new Response('Offline', { status: 408, ... })] *)
Definition offline_response : NetResponse :=
  {| status := 408; type := "default"; body := "Offline" |}.

(** What the handler does with a [fetch] event: it returns without
    answering, or it answers with a response ([None]: undefined) and
    has or has not put the response of the network into the cache. *)
Inductive Outcome : Type :=
| NotHandled
| RespondWith (response : option NetResponse) (put : bool).

(** Lines 77-135.  [cachedResponse] is what [caches.match(event.request)]
    resolves to, [network] what [fetch(event.request)] resolves to ([None]:
    it rejects), [offlinePage] what [caches.match(OFFLINE_URL)] resolves
    to. *)
Definition onFetch (origin : string) (request : FetchRequest)
    (cachedResponse network offlinePage : option NetResponse) : Outcome :=
  if negb (String.eqb (method request) "GET") then NotHandled
  else if negb (JsString.startsWith origin (url request)) then NotHandled
  else
    match cachedResponse with
    | Some cached => RespondWith (Some cached) false
    | None =>
        match network with
        | Some response =>
            if negb (status response =? 200)
               || negb (String.eqb (type response) "basic")
            then RespondWith (Some response) false
            else RespondWith (Some response) (shouldCache (url request))
        | None =>
            if String.eqb (mode request) "navigate"
            then RespondWith offlinePage false
            else RespondWith (Some offline_response) false
        end
    end.

(** A key of the cache: what a stored request is matched by, its URL
    and the values of the headers its response varies on.  One URL can be
    stored more than once, under different such values. *)
Record CacheKey : Type := mkCacheKey {
  key_url : string;
  key_vary : list (string * string)
}.

#[global] Instance CacheKey_eq_dec : EqDecision CacheKey.
Proof. solve_decision. Defined.

(** Lines 267-278.  [requests] is what [cache.keys()] gives, oldest first;
    [cache.delete(request)] removes the entries that match the request,
    and every one of the oldest is deleted. *)
Definition cleanupCache (requests : list CacheKey) : list CacheKey :=
  if (100 <? length requests)%nat then
    let oldestRequests := take (length requests - 100) requests in
    List.filter (λ k, negb (bool_decide (k ∈ oldestRequests))) requests
  else requests.

End ServiceWorker.

(** The extensions of the two patterns that end a URL. *)
Definition cached_extensions : list string :=
  ["png"; "jpg"; "jpeg"; "svg"; "gif"; "webp"; "ico"; "js"; "css"].

(** ** Sample requests *)

Module Sample.

Definition fields (svc msg : string) : FormData :=
  [("service", FString svc); ("message", FString msg);
   ("firstName", FString "Asha"); ("lastName", FString "Patel");
   ("email", FString "asha@example.org")].

(** A well-formed inquiry. *)
Definition inquiry : FormData := fields "Testing" "Please call me back.".

Definition request (addr : option string) (t : Z) (fd : FormData) : Request :=
  {| clientAddress := addr;
     now := t;
     formData := Some fd;
     webhookUrl := Some "https://hooks.example.org/contact";
     localeTime := "16/9/2025, 9:19:50 am";
     isoTime := "2025-09-16T03:49:50.000Z";
     fetchResult := FetchResolves 200 |}.

Definition from (addr : string) (t : Z) : Request :=
  request (Some addr) t inquiry.

(** The inquiry with the hidden field filled in. *)
Definition honeypot : FormData := ("website", FString "http://spam") :: inquiry.

(** The inquiry with a keyword in capitals in the message. *)
Definition pills : FormData := fields "Testing" "Cheap VIAGRA for you".

Definition with_file (ty : string) (sz : Z) : FormData :=
  inquiry ++ [("attachment",
               FFile {| f_name := "brief"; f_type := ty; f_size := sz |})].

(** The inquiry with a service of one space. *)
Definition blank_service : FormData := fields " " "Please call me back.".

(** A request of a client without address. *)
Definition nameless (addr : option string) (t : Z) : Request :=
  request addr t inquiry.

(** The inquiry with another e-mail address. *)
Definition with_email (addr : string) : FormData :=
  [("service", FString "Testing"); ("message", FString "Please call me back.");
   ("firstName", FString "Asha"); ("lastName", FString "Patel");
   ("email", FString addr)].

(** The keys of a cache of [n] images, oldest first. *)
Definition cache_keys (n : nat) : list ServiceWorker.CacheKey :=
  (λ i, {| ServiceWorker.key_url := "/assets/" +:+ pretty i +:+ ".png";
           ServiceWorker.key_vary := [] |}) <$> seq 0 n.

End Sample.

(** ** The handler on the sample requests *)

Example email_accepted :
  Regex.test emailRegex "asha@example.org" = true.
Proof. reflexivity. Qed.

Example email_without_at :
  (POST empty_store
     (Sample.request (Some "203.0.113.7") 1000
        (Sample.with_email "not-an-email"))).1.2
  = invalid_email_response.
Proof. reflexivity. Qed.

Example email_of_white_space :
  (POST empty_store
     (Sample.request (Some "203.0.113.7") 1000 (Sample.with_email " "))).1.2
  = invalid_email_response.
Proof. reflexivity. Qed.

Example email_missing :
  (POST empty_store
     (Sample.request (Some "203.0.113.7") 1000 (Sample.with_email ""))).1.2
  = missing_fields_response.
Proof. reflexivity. Qed.

Example keyword_in_capitals :
  (POST empty_store
     (Sample.request (Some "203.0.113.7") 1000 Sample.pills)).1.2
  = spam_response.
Proof. reflexivity. Qed.

Example pdf_of_5_MiB :
  (POST empty_store
     (Sample.request (Some "203.0.113.7") 1000
        (Sample.with_file "application/pdf" (5 * 1024 * 1024)))).1.2
  = success_response.
Proof. reflexivity. Qed.

Example png_rejected :
  (POST empty_store
     (Sample.request (Some "203.0.113.7") 1000
        (Sample.with_file "image/png" 1024))).1.2
  = invalid_file_type_response.
Proof. reflexivity. Qed.

Example pdf_of_11_MiB :
  (POST empty_store
     (Sample.request (Some "203.0.113.7") 1000
        (Sample.with_file "application/pdf" (11 * 1024 * 1024)))).1.2
  = file_too_large_response.
Proof. reflexivity. Qed.

Example body_not_parsed :
  (POST empty_store
     {| clientAddress := Some "203.0.113.7"; now := 1000; formData := None;
        webhookUrl := None; localeTime := ""; isoTime := "";
        fetchResult := FetchRejects |}).1.2
  = unexpected_error_response.
Proof. reflexivity. Qed.

(** ** The gate *)

Section Gate.

Variable st : Store.
Variable addr : option string.
Variable t : Z.

(** No record: a new object outside the map, and the request goes on. *)
Lemma POST_gate_absent :
  rateLimitStore st !! str_or addr "unknown" = None ->
  POST_gate st addr t =
    ({| heap := heap st ++ [{| count := 0; resetTime := t + window |}];
        rateLimitStore := rateLimitStore st |},
     inr {| clientIP := str_or addr "unknown"; rateLimit := length (heap st) |}).
Proof.
  intros Hnone. unfold POST_gate. rewrite Hnone.
  rewrite list_lookup_total_middle by reflexivity. cbn [resetTime count].
  destruct (Z.gtb_spec t (t + window)) as [Hlt|_].
  - unfold window in Hlt. lia.
  - rewrite list_lookup_total_middle by reflexivity. reflexivity.
Qed.

(** A record whose window is still open is left as it is; the count alone
    decides. *)
Lemma POST_gate_open l r :
  rateLimitStore st !! str_or addr "unknown" = Some l ->
  heap st !! l = Some r ->
  t <= resetTime r ->
  POST_gate st addr t =
    (st, if count r >=? 5 then inl too_many_response
         else inr {| clientIP := str_or addr "unknown"; rateLimit := l |}).
Proof.
  intros Hl Hr Hopen. unfold POST_gate. rewrite Hl.
  rewrite (list_lookup_total_correct _ _ _ Hr).
  destruct (Z.gtb_spec t (resetTime r)) as [Hlt|_]; [lia|].
  rewrite (list_lookup_total_correct _ _ _ Hr).
  destruct st; cbn. destruct (count r >=? 5); reflexivity.
Qed.

(** An expired record is reset where it is stored, and the request goes
    on. *)
Lemma POST_gate_expired l r :
  rateLimitStore st !! str_or addr "unknown" = Some l ->
  heap st !! l = Some r ->
  resetTime r < t ->
  POST_gate st addr t =
    ({| heap := <[l := {| count := 0; resetTime := t + window |}]> (heap st);
        rateLimitStore := rateLimitStore st |},
     inr {| clientIP := str_or addr "unknown"; rateLimit := l |}).
Proof.
  intros Hl Hr Hexp. unfold POST_gate. rewrite Hl.
  rewrite (list_lookup_total_correct _ _ _ Hr).
  destruct (Z.gtb_spec t (resetTime r)) as [_|Hle]; [|lia].
  rewrite list_lookup_total_insert_eq by (eapply lookup_lt_Some; eassumption).
  reflexivity.
Qed.

End Gate.

(** ** The pipeline behind the gate *)

(** A valid submission is accepted: the counter is updated, the response
    is the confirmation, and the notification is dispatched. *)
Lemma POST_body_valid st p rq :
  valid_submission rq = true ->
  ∃ fd, formData rq = Some fd
        ∧ POST_body st p rq =
            (update_rate_limit st p, success_response,
             dispatch (parse_data fd) (clientIP p) rq).
Proof.
  unfold valid_submission, POST_body.
  destruct (formData rq) as [fd|]; [|discriminate].
  intros Hv. exists fd. split; [reflexivity|].
  repeat (apply andb_prop in Hv as [Hv ?]).
  apply negb_true_iff in Hv. rewrite Hv.
  destruct (missing_required (parse_data fd)); [discriminate|].
  destruct (Regex.test emailRegex _); [|discriminate].
  destruct (containsSpam (parse_data fd)); [discriminate|].
  destruct (file_validation (parse_data fd)); [discriminate|].
  reflexivity.
Qed.

(** Every other submission leaves the store to the gate: the pipeline
    itself writes nothing unless it answers with the confirmation. *)
Lemma POST_body_store st p rq :
  valid_submission rq = false ->
  (POST_body st p rq).1.1 = st
  ∧ (POST_body st p rq).1.2 ≠ success_response
  ∧ r_status (POST_body st p rq).1.2 ≠ 429
  ∧ webhook_calls (POST_body st p rq).2 = [].
Proof.
  unfold valid_submission, POST_body.
  destruct (formData rq) as [fd|]; [|intros _; repeat split; discriminate].
  destruct (truthy (website (parse_data fd)));
    [intros _; repeat split; discriminate|].
  destruct (missing_required (parse_data fd));
    [intros _; repeat split; discriminate|].
  destruct (Regex.test emailRegex _);
    [|intros _; repeat split; discriminate].
  destruct (containsSpam (parse_data fd));
    [intros _; repeat split; discriminate|].
  unfold file_validation.
  destruct (attachment (parse_data fd)) as [[s|f]|]; try discriminate.
  destruct (f_size f >? 0); [|discriminate].
  destruct (negb (array_includes allowedTypes (f_type f)));
    [intros _; repeat split; discriminate|].
  destruct (f_size f >? maxFileSize); [|discriminate].
  intros _; repeat split; discriminate.
Qed.

(** What the update shows under the key of the request. *)
Lemma record_of_update st p r :
  heap st !! rateLimit p = Some r ->
  record_of (update_rate_limit st p) (clientIP p)
  = Some {| count := count r + 1; resetTime := resetTime r |}.
Proof.
  intros Hr. unfold record_of, update_rate_limit. cbn.
  rewrite lookup_insert_eq. cbn.
  rewrite (list_lookup_total_correct _ _ _ Hr).
  apply list_lookup_insert_eq. eapply lookup_lt_Some; eassumption.
Qed.

(** ** One request served alone *)

Lemma record_of_Some st ip r :
  record_of st ip = Some r
  <-> ∃ l, rateLimitStore st !! ip = Some l ∧ heap st !! l = Some r.
Proof.
  unfold record_of. rewrite bind_Some. reflexivity.
Qed.

Lemma record_of_None st ip :
  rateLimitStore st !! ip = None -> record_of st ip = None.
Proof.
  intros H. unfold record_of. rewrite H. reflexivity.
Qed.

Section Alone.

Variable st : Store.
Variable rq : Request.

(** The first valid submission of an identity opens its window. *)
Lemma POST_absent_valid :
  rateLimitStore st !! client_key rq = None ->
  valid_submission rq = true ->
  ∃ st' es, POST st rq = (st', success_response, es)
    ∧ record_of st' (client_key rq)
      = Some {| count := 1; resetTime := now rq + window |}.
Proof.
  unfold client_key. intros Hnone Hv. unfold POST.
  rewrite (POST_gate_absent _ _ _ Hnone).
  destruct (POST_body_valid
              {| heap := heap st ++ [{| count := 0; resetTime := now rq + window |}];
                 rateLimitStore := rateLimitStore st |}
              {| clientIP := str_or (clientAddress rq) "unknown"; rateLimit := length (heap st) |}
              rq Hv) as (fd & _ & ->).
  eexists _, _. split; [reflexivity|].
  refine (record_of_update _ (mkPending _ _) (mkRateLimit 0 _) _).
  cbn. apply list_lookup_middle. reflexivity.
Qed.

(** A valid submission inside an open window with room left counts one
    up. *)
Lemma POST_open_valid r :
  record_of st (client_key rq) = Some r ->
  now rq <= resetTime r ->
  count r < 5 ->
  valid_submission rq = true ->
  ∃ st' es, POST st rq = (st', success_response, es)
    ∧ record_of st' (client_key rq)
      = Some {| count := count r + 1; resetTime := resetTime r |}.
Proof.
  unfold client_key. intros (l & Hl & Hr)%record_of_Some Hopen Hroom Hv.
  unfold POST.
  rewrite (POST_gate_open _ _ _ _ _ Hl Hr Hopen).
  destruct (Z.geb_spec (count r) 5) as [?|_]; [lia|].
  destruct (POST_body_valid st
              {| clientIP := str_or (clientAddress rq) "unknown"; rateLimit := l |} rq Hv)
    as (fd & _ & ->).
  eexists _, _. split; [reflexivity|].
  exact (record_of_update st {| clientIP := _; rateLimit := l |} r Hr).
Qed.

(** Inside an open window with the count at the threshold the request is
    turned away and nothing is written. *)
Lemma POST_limited r :
  record_of st (client_key rq) = Some r ->
  now rq <= resetTime r ->
  5 <= count r ->
  POST st rq = (st, too_many_response, []).
Proof.
  unfold client_key. intros (l & Hl & Hr)%record_of_Some Hopen Hfull.
  unfold POST.
  rewrite (POST_gate_open _ _ _ _ _ Hl Hr Hopen).
  destruct (Z.geb_spec (count r) 5) as [_|?]; [reflexivity|lia].
Qed.

(** A valid submission after the window has run out starts a new one. *)
Lemma POST_expired_valid r :
  record_of st (client_key rq) = Some r ->
  resetTime r < now rq ->
  valid_submission rq = true ->
  ∃ st' es, POST st rq = (st', success_response, es)
    ∧ record_of st' (client_key rq)
      = Some {| count := 1; resetTime := now rq + window |}.
Proof.
  unfold client_key. intros (l & Hl & Hr)%record_of_Some Hexp Hv.
  unfold POST.
  rewrite (POST_gate_expired _ _ _ _ _ Hl Hr Hexp).
  destruct (POST_body_valid
              {| heap := <[l := {| count := 0; resetTime := now rq + window |}]> (heap st);
                 rateLimitStore := rateLimitStore st |}
              {| clientIP := str_or (clientAddress rq) "unknown"; rateLimit := l |} rq Hv)
    as (fd & _ & ->).
  eexists _, _. split; [reflexivity|].
  refine (record_of_update _ (mkPending _ _) (mkRateLimit 0 _) _).
  cbn. apply list_lookup_insert_eq. eapply lookup_lt_Some; eassumption.
Qed.

End Alone.

(** Either way the first valid submission opens a window of one hour. *)
Lemma POST_window_start st rq :
  no_open_window st (client_key rq) (now rq) ->
  valid_submission rq = true ->
  ∃ st' es, POST st rq = (st', success_response, es)
    ∧ record_of st' (client_key rq)
      = Some {| count := 1; resetTime := now rq + window |}.
Proof.
  intros [Hnone|(r & Hr & Hexp)] Hv.
  - apply POST_absent_valid; assumption.
  - eapply POST_expired_valid; eassumption.
Qed.

(** ** Requests served one after the other *)

Lemma run_app st rqs1 rqs2 :
  run st (rqs1 ++ rqs2)
  = let '(st1, resps1) := run st rqs1 in
    let '(st2, resps2) := run st1 rqs2 in
    (st2, resps1 ++ resps2).
Proof.
  revert st. induction rqs1 as [|rq rqs1 IH]; intros st; cbn.
  - destruct (run st rqs2). reflexivity.
  - destruct (POST st rq) as [[st1 resp] es]. rewrite IH.
    destruct (run st1 rqs1) as [st2 resps1].
    destruct (run st2 rqs2) as [st3 resps2]. reflexivity.
Qed.

(** As long as there is room, valid submissions inside the window are all
    confirmed and each counts one up. *)
Lemma run_open ip rqs : ∀ st r,
  record_of st ip = Some r ->
  Forall (λ rq, client_key rq = ip ∧ valid_submission rq = true
                ∧ now rq <= resetTime r) rqs ->
  count r + Z.of_nat (length rqs) <= 5 ->
  ∃ st', run st rqs = (st', replicate (length rqs) success_response)
    ∧ record_of st' ip
      = Some {| count := count r + Z.of_nat (length rqs);
                resetTime := resetTime r |}.
Proof.
  induction rqs as [|rq rqs IH]; intros st r Hr Hall Hroom.
  - exists st. split; [reflexivity|]. rewrite Hr. destruct r; cbn.
    f_equal. f_equal. lia.
  - apply Forall_cons in Hall as [(Hkey & Hv & Hopen) Hall].
    cbn [length] in Hroom. subst ip.
    destruct (POST_open_valid st rq r Hr Hopen ltac:(lia) Hv)
      as (st1 & es & HP & Hr1).
    destruct (IH st1 _ Hr1 Hall ltac:(cbn; lia)) as (st2 & Hrun & Hr2).
    exists st2. cbn [run length replicate]. rewrite HP, Hrun.
    split; [reflexivity|]. rewrite Hr2. cbn. f_equal. f_equal. lia.
Qed.

(** ** The rolling window *)

(** Served one after the other.  For a fixed client identity that has no
    record or an expired one and submits valid, non-spam requests, each
    answered before the next is taken up: the first five
    submissions within one hour of the first are each answered with HTTP
    200 and the confirmation, the sixth within that hour is answered with
    HTTP 429, and a submission after the reset time has passed is answered
    with HTTP 200 and the confirmation again, the count having started
    over. *)
Theorem rate_limit_window
    (st : Store) (ip : string)
    (first : Request) (next4 : list Request) (sixth later : Request) :
  no_open_window st ip (now first) ->
  length next4 = 4%nat ->
  Forall (λ rq, client_key rq = ip ∧ valid_submission rq = true)
    (first :: next4 ++ [sixth; later]) ->
  Forall (λ rq, now rq <= now first + window) (next4 ++ [sixth]) ->
  now first + window < now later ->
  ∃ st',
    run st (first :: next4 ++ [sixth; later])
    = (st', replicate 5 success_response
            ++ [too_many_response; success_response])
    ∧ Forall (λ resp, r_status resp = 200
                      ∧ r_success (r_body resp) = true)
        (replicate 5 success_response)
    ∧ r_status too_many_response = 429
    ∧ record_of st' ip
      = Some {| count := 1; resetTime := now later + window |}.
Proof.
  intros Hnone Hlen Hall Hin Hlater.
  apply Forall_cons in Hall as [[Hk1 Hv1] Hall].
  apply Forall_app in Hall as [Hall4 Hall2].
  apply Forall_cons in Hall2 as [[Hk6 Hv6] Hall2].
  apply Forall_cons in Hall2 as [[Hk7 Hv7] _].
  apply Forall_app in Hin as [Hin4 Hin6].
  apply Forall_cons in Hin6 as [Hin6 _].
  subst ip.
  (* the first submission opens the window *)
  destruct (POST_window_start st first Hnone Hv1) as (st1 & es1 & HP1 & Hr1).
  (* the next four fit in *)
  destruct (run_open (client_key first) next4 st1 _ Hr1) as (st5 & Hrun & Hr5).
  { apply Forall_forall. intros rq Hrq.
    rewrite Forall_forall in Hall4. rewrite Forall_forall in Hin4.
    destruct (Hall4 rq Hrq) as [? ?]. specialize (Hin4 rq Hrq).
    cbn. auto. }
  { rewrite Hlen. cbn. lia. }
  rewrite Hlen in Hrun, Hr5. cbn in Hr5.
  (* the sixth finds the count at the threshold *)
  assert (HP6 : POST st5 sixth = (st5, too_many_response, [])).
  { apply (POST_limited st5 sixth _ ltac:(rewrite Hk6; exact Hr5));
      cbn; lia. }
  (* the late one finds the window run out *)
  destruct (POST_expired_valid st5 later _
              ltac:(rewrite Hk7; exact Hr5) ltac:(cbn; lia) Hv7)
    as (st7 & es7 & HP7 & Hr7).
  exists st7. rewrite Hk7 in Hr7. split; [|split; [|split]].
  - cbn [run]. rewrite HP1, run_app, Hrun. cbn [run].
    rewrite HP6, HP7. reflexivity.
  - repeat constructor.
  - reflexivity.
  - exact Hr7.
Qed.

Lemma rate_limit_window_witness :
  ∃ st',
    run empty_store
      (Sample.from "203.0.113.7" 1000
       :: [Sample.from "203.0.113.7" 2000; Sample.from "203.0.113.7" 3000;
           Sample.from "203.0.113.7" 4000; Sample.from "203.0.113.7" 5000]
       ++ [Sample.from "203.0.113.7" 3601000;
           Sample.from "203.0.113.7" 3601001])
    = (st', replicate 5 success_response
            ++ [too_many_response; success_response])
    ∧ Forall (λ resp, r_status resp = 200
                      ∧ r_success (r_body resp) = true)
        (replicate 5 success_response)
    ∧ r_status too_many_response = 429
    ∧ record_of st' "203.0.113.7"
      = Some {| count := 1; resetTime := 3601001 + window |}.
Proof.
  apply (rate_limit_window empty_store "203.0.113.7").
  - left. reflexivity.
  - reflexivity.
  - repeat constructor.
  - repeat constructor; cbn; unfold window; lia.
  - cbn. unfold window. lia.
Defined.

(** ** Well-formed stores and the other identities *)

Lemma record_of_heap_app st rs ip :
  well_formed st ->
  record_of {| heap := heap st ++ rs; rateLimitStore := rateLimitStore st |} ip
  = record_of st ip.
Proof.
  intros [Hb _]. unfold record_of. cbn.
  destruct (rateLimitStore st !! ip) as [l|] eqn:Hl; [|reflexivity]. cbn.
  apply lookup_app_l. eauto.
Qed.

Lemma record_of_heap_insert st l r ip ip' :
  well_formed st ->
  rateLimitStore st !! ip = Some l ->
  ip' ≠ ip ->
  record_of {| heap := <[l := r]> (heap st);
               rateLimitStore := rateLimitStore st |} ip'
  = record_of st ip'.
Proof.
  intros [_ Hinj] Hl Hne. unfold record_of. cbn.
  destruct (rateLimitStore st !! ip') as [l'|] eqn:Hl'; [|reflexivity]. cbn.
  apply list_lookup_insert_ne. intros ->. apply Hne. eauto.
Qed.

(** The gate keeps the store well formed, binds no key, leaves the records
    of the other identities alone, and hands on a sound reference. *)
Lemma POST_gate_inv st addr t st' out :
  POST_gate st addr t = (st', out) ->
  well_formed st ->
  well_formed st'
  ∧ rateLimitStore st' = rateLimitStore st
  ∧ (∀ ip, ip ≠ str_or addr "unknown" -> record_of st' ip = record_of st ip)
  ∧ match out with
    | inl resp => resp = too_many_response
    | inr p => pending_ok st' p ∧ clientIP p = str_or addr "unknown"
    end.
Proof.
  intros Hg Hwf. pose proof Hwf as [Hb Hinj].
  destruct (rateLimitStore st !! str_or addr "unknown") as [l|] eqn:Hl.
  - destruct (lookup_lt_is_Some_2 (heap st) l (Hb _ _ Hl)) as [r Hr].
    destruct (Z_le_gt_dec t (resetTime r)) as [Hopen|Hexp].
    + rewrite (POST_gate_open _ _ _ _ _ Hl Hr Hopen) in Hg.
      injection Hg as <- <-. repeat split; try assumption; try reflexivity.
      destruct (count r >=? 5); [reflexivity|]. cbn.
      split; [split|reflexivity]; eauto.
    + rewrite (POST_gate_expired st addr t l r Hl Hr ltac:(lia)) in Hg.
      injection Hg as <- <-. cbn. repeat split; cbn.
      * intros ip l' Hl'. rewrite length_insert. eauto.
      * exact Hinj.
      * intros ip Hne. eapply record_of_heap_insert; eassumption.
      * rewrite length_insert. eauto.
      * intros ip Hip. eauto.
  - rewrite (POST_gate_absent _ _ _ Hl) in Hg.
    injection Hg as <- <-. cbn. repeat split; cbn.
    + intros ip l' Hl'. rewrite length_app. cbn.
      specialize (Hb _ _ Hl'). lia.
    + exact Hinj.
    + intros ip _. apply record_of_heap_app. exact Hwf.
    + rewrite length_app. cbn. lia.
    + intros ip Hip. specialize (Hb _ _ Hip). lia.
Qed.

Lemma update_well_formed st p :
  well_formed st -> pending_ok st p -> well_formed (update_rate_limit st p).
Proof.
  intros [Hb Hinj] [Hlt Honly]. split; cbn.
  - intros ip l. rewrite length_insert, lookup_insert.
    case_decide; [intros [= <-]; exact Hlt|eauto].
  - intros ip1 ip2 l. rewrite !lookup_insert.
    repeat case_decide; subst.
    + reflexivity.
    + intros [= <-] H2. symmetry. eauto.
    + intros H1 [= <-]. eauto.
    + eauto.
Qed.

Lemma update_frame st p ip :
  pending_ok st p ->
  ip ≠ clientIP p ->
  record_of (update_rate_limit st p) ip = record_of st ip.
Proof.
  intros [_ Honly] Hne. unfold record_of. cbn.
  rewrite lookup_insert_ne by congruence.
  destruct (rateLimitStore st !! ip) as [l|] eqn:Hl; [|reflexivity]. cbn.
  apply list_lookup_insert_ne. intros Heq. apply Hne, Honly. congruence.
Qed.

(** A whole request keeps the store well formed and never touches the
    record of another identity. *)
Lemma POST_inv st rq :
  well_formed st ->
  well_formed (POST st rq).1.1
  ∧ (∀ ip, ip ≠ client_key rq ->
           record_of (POST st rq).1.1 ip = record_of st ip).
Proof.
  intros Hwf. unfold POST, client_key.
  destruct (POST_gate st (clientAddress rq) (now rq)) as [st1 out] eqn:Hg.
  destruct (POST_gate_inv _ _ _ _ _ Hg Hwf) as (Hwf1 & _ & Hfr & Hout).
  destruct out as [resp|p]; cbn; [auto|].
  destruct Hout as [Hok Hkey].
  destruct (valid_submission rq) eqn:Hv.
  - destruct (POST_body_valid st1 p rq Hv) as (fd & _ & ->). cbn. split.
    + apply update_well_formed; assumption.
    + intros ip Hne. rewrite update_frame by congruence. auto.
  - destruct (POST_body_store st1 p rq Hv) as (-> & _). auto.
Qed.

Lemma well_formed_empty : well_formed empty_store.
Proof.
  split; cbn; intros *; rewrite lookup_empty; discriminate.
Qed.

Lemma reachable_well_formed st : reachable st -> well_formed st.
Proof.
  induction 1 as [|st rq _ IH]; [apply well_formed_empty|].
  apply POST_inv, IH.
Qed.

(** ** When the counter is advanced *)

(** A submission that is not valid, once past the gate, leaves the store as
    the gate left it and is answered with something other than the
    confirmation, without any webhook call. *)
Lemma POST_invalid st rq st1 p :
  POST_gate st (clientAddress rq) (now rq) = (st1, inr p) ->
  valid_submission rq = false ->
  (POST st rq).1.1 = st1
  ∧ (POST st rq).1.2 ≠ success_response
  ∧ r_status (POST st rq).1.2 ≠ 429
  ∧ webhook_calls (POST st rq).2 = [].
Proof.
  intros Hg Hv. unfold POST. rewrite Hg. apply POST_body_store, Hv.
Qed.

(** C2, amended. Every request from an identity whose record is absent,
    expired or below the threshold passes the gate (it is not answered
    with HTTP 429).  The counter is advanced - created with count 1, reset
    to count 1 or incremented - only when the submission is accepted, at
    the end of the pipeline; a submission that is classified as spam or
    rejected as invalid does not advance it: no record is created, and an
    existing record keeps its count or, when expired, is reset to count
    0. *)
Theorem counter_advanced_on_acceptance (st : Store) (rq : Request) :
  eligible st rq ->
  r_status (POST st rq).1.2 ≠ 429
  ∧ (valid_submission rq = true ->
     (POST st rq).1.2 = success_response
     ∧ record_of (POST st rq).1.1 (client_key rq)
       = Some (advanced (record_of st (client_key rq)) (now rq)))
  ∧ (valid_submission rq = false ->
     (POST st rq).1.2 ≠ success_response
     ∧ record_of (POST st rq).1.1 (client_key rq)
       = entered (record_of st (client_key rq)) (now rq)).
Proof.
  intros [Hnone|(r & Hr & Hel)].
  - (* no record *)
    pose proof (POST_gate_absent st (clientAddress rq) (now rq) Hnone) as Hg.
    rewrite (record_of_None _ _ Hnone). cbn [advanced entered].
    destruct (valid_submission rq) eqn:Hv.
    + destruct (POST_absent_valid st rq Hnone Hv) as (st' & es & -> & Hr').
      cbn. repeat split; try discriminate. exact Hr'.
    + destruct (POST_invalid st rq _ _ Hg Hv) as (-> & Hne & H429 & _).
      repeat split; try discriminate; try assumption.
      apply record_of_None. exact Hnone.
  - pose proof Hr as (l & Hl & Hh)%record_of_Some.
    rewrite Hr. cbn [advanced entered].
    destruct (Z.gtb_spec (now rq) (resetTime r)) as [Hexp|Hopen].
    + (* expired record *)
      pose proof (POST_gate_expired st (clientAddress rq) (now rq) l r
                    Hl Hh Hexp) as Hg.
      destruct (valid_submission rq) eqn:Hv.
      * destruct (POST_expired_valid st rq r Hr Hexp Hv)
          as (st' & es & -> & Hr').
        cbn. repeat split; try discriminate. exact Hr'.
      * destruct (POST_invalid st rq _ _ Hg Hv) as (-> & Hne & H429 & _).
        repeat split; try discriminate; try assumption.
        unfold record_of. cbn. rewrite Hl. cbn.
        apply list_lookup_insert_eq. eapply lookup_lt_Some; eassumption.
    + (* open window, count below the threshold *)
      assert (Hroom : count r < 5) by lia.
      pose proof (POST_gate_open st (clientAddress rq) (now rq) l r
                    Hl Hh Hopen) as Hg.
      destruct (Z.geb_spec (count r) 5) as [?|_]; [lia|].
      destruct (valid_submission rq) eqn:Hv.
      * destruct (POST_open_valid st rq r Hr Hopen Hroom Hv)
          as (st' & es & -> & Hr').
        cbn. repeat split; try discriminate. exact Hr'.
      * destruct (POST_invalid st rq _ _ Hg Hv) as (-> & Hne & H429 & _).
        repeat split; try discriminate; assumption.
Qed.

Lemma counter_advanced_on_acceptance_witness :
  r_status (POST empty_store (Sample.from "203.0.113.7" 1000)).1.2 ≠ 429
  ∧ (valid_submission (Sample.from "203.0.113.7" 1000) = true ->
     (POST empty_store (Sample.from "203.0.113.7" 1000)).1.2 = success_response
     ∧ record_of (POST empty_store (Sample.from "203.0.113.7" 1000)).1.1
         (client_key (Sample.from "203.0.113.7" 1000))
       = Some (advanced
                 (record_of empty_store
                    (client_key (Sample.from "203.0.113.7" 1000)))
                 (now (Sample.from "203.0.113.7" 1000))))
  ∧ (valid_submission (Sample.from "203.0.113.7" 1000) = false ->
     (POST empty_store (Sample.from "203.0.113.7" 1000)).1.2 ≠ success_response
     ∧ record_of (POST empty_store (Sample.from "203.0.113.7" 1000)).1.1
         (client_key (Sample.from "203.0.113.7" 1000))
       = entered
           (record_of empty_store
              (client_key (Sample.from "203.0.113.7" 1000)))
           (now (Sample.from "203.0.113.7" 1000))).
Proof.
  apply (counter_advanced_on_acceptance empty_store
           (Sample.from "203.0.113.7" 1000)).
  left. reflexivity.
Defined.

(** C2 as stated fails: a new identity whose first submission has the
    honeypot filled in passes the gate and is answered with HTTP 200, yet
    no record is created for it. *)
Lemma spam_is_not_counted : ¬ counter_advanced_on_entry.
Proof.
  intros Hclaim.
  destruct (Hclaim empty_store
              (Sample.request (Some "203.0.113.7") 1000 Sample.honeypot)
              reachable_empty ltac:(left; reflexivity)) as [_ Hadv].
  vm_compute in Hadv. discriminate Hadv.
Qed.

(** ** Strings *)

Lemma toLowerCase_app a b :
  JsString.toLowerCase (a +:+ b)
  = JsString.toLowerCase a +:+ JsString.toLowerCase b.
Proof.
  induction a as [|c a IH]; simpl; [reflexivity|]. rewrite IH. reflexivity.
Qed.

Lemma startsWith_app k post : JsString.startsWith k (k +:+ post) = true.
Proof.
  induction k as [|c k IH]; simpl; [reflexivity|].
  rewrite Ascii.eqb_refl. exact IH.
Qed.

Lemma includes_startsWith t k :
  JsString.startsWith k t = true -> JsString.includes t k = true.
Proof.
  intros H. destruct t; cbn; rewrite H; reflexivity.
Qed.

Lemma includes_app_l pre t k :
  JsString.includes t k = true -> JsString.includes (pre +:+ t) k = true.
Proof.
  intros H. induction pre as [|c pre IH]; simpl; [exact H|].
  rewrite IH. apply orb_true_r.
Qed.

(** A string includes every word that occurs in it. *)
Lemma includes_occurs word text :
  occurs word text -> JsString.includes text word = true.
Proof.
  intros (pre & post & ->).
  apply includes_app_l, includes_startsWith, startsWith_app.
Qed.

(** A keyword written in any mix of cases somewhere in the content is
    found. *)
Lemma containsSpam_occurs data keyword word :
  In keyword spamKeywords ->
  JsString.toLowerCase word = keyword ->
  occurs word (content data) ->
  containsSpam data = true.
Proof.
  intros Hin Hlow (pre & post & Hc).
  unfold containsSpam. apply existsb_exists. exists keyword.
  split; [exact Hin|].
  unfold contentToCheck. rewrite Hc, !toLowerCase_app, Hlow.
  apply includes_occurs. eexists _, _. reflexivity.
Qed.

(** ** Spam *)

(** Past the gate, a submission that a spam check catches is answered with
    [{ success: true }] and HTTP 200, nothing is written and no webhook is
    called. *)
Lemma POST_spam st rq st1 p :
  POST_gate st (clientAddress rq) (now rq) = (st1, inr p) ->
  spam_classified rq = true ->
  (POST st rq).1.2 = spam_response
  ∧ webhook_calls (POST st rq).2 = []
  ∧ (POST st rq).1.1 = st1.
Proof.
  intros Hg. unfold POST. rewrite Hg. unfold spam_classified, POST_body.
  destruct (formData rq) as [fd|]; [|discriminate].
  cbn zeta. destruct (truthy (website (parse_data fd))); [auto|].
  destruct (missing_required (parse_data fd)); [discriminate|].
  destruct (Regex.test emailRegex _); [|discriminate].
  cbn. intros ->. auto.
Qed.

(** C3. Every submission that is classified as spam - the honeypot field
    is not empty, whatever the other fields hold, or the submission is
    otherwise well formed and one of the configured keywords (casino,
    viagra, porn, gambling, crypto mining) occurs in any mix of upper and
    lower case in the text put together from message, company, firstName
    and lastName - is answered with HTTP 200 and a body with success =
    true, and no webhook is called. *)
Theorem spam_is_answered_with_success
    (st : Store) (rq : Request) (fd : FormData) :
  passes_gate st rq ->
  formData rq = Some fd ->
  truthy (website (parse_data fd)) = true
  ∨ (truthy (website (parse_data fd)) = false
     ∧ missing_required (parse_data fd) = false
     ∧ Regex.test emailRegex (toString (email (parse_data fd))) = true
     ∧ ∃ keyword word,
         In keyword ["casino"; "viagra"; "porn"; "gambling"; "crypto mining"]
         ∧ JsString.toLowerCase word = keyword
         ∧ occurs word (content (parse_data fd))) ->
  r_status (POST st rq).1.2 = 200
  ∧ r_success (r_body (POST st rq).1.2) = true
  ∧ (POST st rq).1.2 = spam_response
  ∧ webhook_calls (POST st rq).2 = [].
Proof.
  intros (st1 & p & Hg) Hfd Hspam.
  assert (Hc : spam_classified rq = true).
  { unfold spam_classified. rewrite Hfd. cbn zeta.
    destruct Hspam as [-> | (-> & -> & -> & kw & w & Hin & Hlow & Hocc)];
      [reflexivity|].
    cbn. eapply containsSpam_occurs; eassumption. }
  destruct (POST_spam st rq st1 p Hg Hc) as (-> & Hw & _).
  repeat split. exact Hw.
Qed.

Lemma spam_is_answered_with_success_witness :
  r_status (POST empty_store
              (Sample.request (Some "203.0.113.7") 1000 Sample.pills)).1.2
  = 200
  ∧ r_success (r_body (POST empty_store
              (Sample.request (Some "203.0.113.7") 1000 Sample.pills)).1.2)
    = true
  ∧ (POST empty_store
       (Sample.request (Some "203.0.113.7") 1000 Sample.pills)).1.2
    = spam_response
  ∧ webhook_calls
      (POST empty_store
         (Sample.request (Some "203.0.113.7") 1000 Sample.pills)).2 = [].
Proof.
  apply (spam_is_answered_with_success empty_store
           (Sample.request (Some "203.0.113.7") 1000 Sample.pills)
           Sample.pills).
  - eexists _, _. reflexivity.
  - reflexivity.
  - right. repeat split.
    exists "viagra", "VIAGRA". repeat split.
    + right. left. reflexivity.
    + exists "Cheap ", " for you  Asha Patel". reflexivity.
Defined.

(** C4 as stated fails: the same inquiry sent once with the honeypot
    filled in and once without is answered with two different bodies. *)
Lemma spam_response_is_distinguishable :
  spam_classified
    (Sample.request (Some "203.0.113.7") 1000 Sample.honeypot) = true
  ∧ valid_submission
      (Sample.request (Some "203.0.113.7") 1000 Sample.inquiry) = true
  ∧ (POST empty_store
       (Sample.request (Some "203.0.113.7") 1000 Sample.honeypot)).1.2
    ≠ (POST empty_store
         (Sample.request (Some "203.0.113.7") 1000 Sample.inquiry)).1.2.
Proof.
  repeat split. vm_compute. discriminate.
Qed.

(** C4, amended. The response to a submission classified as spam and the
    response to an accepted submission have the same status code (200), the
    same headers, the same success flag (true) and no error field; they
    differ in one thing: the accepted response carries the confirmation in
    its message field and the spam response has no message field. *)
Theorem spam_response_shape (st st' : Store) (rq rq' : Request) :
  passes_gate st rq ->
  spam_classified rq = true ->
  passes_gate st' rq' ->
  valid_submission rq' = true ->
  r_status (POST st rq).1.2 = r_status (POST st' rq').1.2
  ∧ r_status (POST st rq).1.2 = 200
  ∧ r_headers (POST st rq).1.2 = r_headers (POST st' rq').1.2
  ∧ r_success (r_body (POST st rq).1.2) = true
  ∧ r_success (r_body (POST st' rq').1.2) = true
  ∧ r_error (r_body (POST st rq).1.2) = None
  ∧ r_error (r_body (POST st' rq').1.2) = None
  ∧ r_message (r_body (POST st rq).1.2) = None
  ∧ r_message (r_body (POST st' rq').1.2)
    = Some "Your message has been sent successfully. We'll get back to you within 24 hours.".
Proof.
  intros (st1 & p & Hg) Hspam (st1' & p' & Hg') Hv.
  destruct (POST_spam st rq st1 p Hg Hspam) as (-> & _).
  unfold POST at 1 2 3 4 5. rewrite Hg'.
  destruct (POST_body_valid st1' p' rq' Hv) as (fd & _ & ->).
  repeat split.
Qed.

Lemma spam_response_shape_witness :
  r_message (r_body (POST empty_store
     (Sample.request (Some "203.0.113.7") 1000 Sample.honeypot)).1.2) = None
  ∧ r_message (r_body (POST empty_store
     (Sample.request (Some "203.0.113.7") 1000 Sample.inquiry)).1.2)
    = Some "Your message has been sent successfully. We'll get back to you within 24 hours.".
Proof.
  pose proof (spam_response_shape empty_store empty_store
    (Sample.request (Some "203.0.113.7") 1000 Sample.honeypot)
    (Sample.request (Some "203.0.113.7") 1000 Sample.inquiry)) as H.
  destruct H as (_ & _ & _ & _ & _ & _ & _ & Hs & Ha).
  - eexists _, _. reflexivity.
  - reflexivity.
  - eexists _, _. reflexivity.
  - reflexivity.
  - split; assumption.
Defined.

(** ** Validation *)

Lemma truthy_false v : truthy v = false <-> absent_or_empty v.
Proof.
  unfold absent_or_empty. destruct v as [[s|f]|]; cbn.
  - rewrite negb_false_iff, String.eqb_eq. split.
    + intros ->. right. reflexivity.
    + intros [H|H]; [discriminate H|]. congruence.
  - split; [discriminate|]. intros [H|H]; discriminate H.
  - split; [left; reflexivity|reflexivity].
Qed.

(** Past the gate, with the body parsed and the honeypot empty, the
    response is decided by the fields of [data]. *)
Lemma POST_parsed st rq st1 p fd :
  POST_gate st (clientAddress rq) (now rq) = (st1, inr p) ->
  formData rq = Some fd ->
  truthy (website (parse_data fd)) = false ->
  (POST st rq).1.2 =
    if missing_required (parse_data fd) then missing_fields_response
    else if negb (Regex.test emailRegex (toString (email (parse_data fd))))
    then invalid_email_response
    else if containsSpam (parse_data fd) then spam_response
    else match file_validation (parse_data fd) with
         | Some resp => resp
         | None => success_response
         end.
Proof.
  intros Hg Hfd Hw. unfold POST. rewrite Hg. unfold POST_body.
  rewrite Hfd. cbn zeta. rewrite Hw.
  destruct (missing_required _); [reflexivity|].
  destruct (negb _); [reflexivity|].
  destruct (containsSpam _); [reflexivity|].
  destruct (file_validation _); reflexivity.
Qed.

(** C6 as stated fails: a service of one space is empty once trimmed, yet
    the submission is accepted with HTTP 200. *)
Lemma blank_service_is_accepted :
  blank (service (parse_data Sample.blank_service)) = true
  ∧ (POST empty_store
       (Sample.request (Some "203.0.113.7") 1000 Sample.blank_service)).1.2
    = success_response
  ∧ success_response ≠ missing_fields_response.
Proof.
  repeat split. discriminate.
Qed.

(** C6, amended. A submission that has passed the gate, has been parsed
    and has an empty honeypot is rejected with HTTP 400 and the
    missing-required-fields error whenever one of service, message,
    firstName, lastName, email is absent or the empty string.  Nothing is
    trimmed: when all five hold a non-empty string, white space or not, the
    submission is not rejected as missing required fields. *)
Theorem missing_required_fields_rejected
    (st : Store) (rq : Request) (fd : FormData) :
  passes_gate st rq ->
  formData rq = Some fd ->
  truthy (website (parse_data fd)) = false ->
  (absent_or_empty (service (parse_data fd))
   ∨ absent_or_empty (message (parse_data fd))
   ∨ absent_or_empty (firstName (parse_data fd))
   ∨ absent_or_empty (lastName (parse_data fd))
   ∨ absent_or_empty (email (parse_data fd)) ->
   (POST st rq).1.2 = missing_fields_response
   ∧ r_status (POST st rq).1.2 = 400
   ∧ r_error (r_body (POST st rq).1.2) = Some "Missing required fields")
  ∧ ((∃ s1 s2 s3 s4 s5,
        service (parse_data fd) = Some (FString s1) ∧ s1 ≠ ""
        ∧ message (parse_data fd) = Some (FString s2) ∧ s2 ≠ ""
        ∧ firstName (parse_data fd) = Some (FString s3) ∧ s3 ≠ ""
        ∧ lastName (parse_data fd) = Some (FString s4) ∧ s4 ≠ ""
        ∧ email (parse_data fd) = Some (FString s5) ∧ s5 ≠ "") ->
     (POST st rq).1.2 ≠ missing_fields_response).
Proof.
  intros (st1 & p & Hg) Hfd Hw.
  rewrite (POST_parsed st rq st1 p fd Hg Hfd Hw). split.
  - intros Hmiss.
    assert (Hm : missing_required (parse_data fd) = true).
    { unfold missing_required.
      rewrite <- !truthy_false in Hmiss.
      destruct Hmiss as [-> | [-> | [-> | [-> | ->]]]]; cbn;
        rewrite ?orb_true_r; reflexivity. }
    rewrite Hm. repeat split.
  - intros (s1 & s2 & s3 & s4 & s5 & H1 & N1 & H2 & N2 & H3 & N3
            & H4 & N4 & H5 & N5).
    assert (Hm : missing_required (parse_data fd) = false).
    { unfold missing_required. rewrite H1, H2, H3, H4, H5. cbn.
      apply String.eqb_neq in N1, N2, N3, N4, N5.
      rewrite N1, N2, N3, N4, N5. reflexivity. }
    rewrite Hm.
    destruct (negb _); [discriminate|].
    destruct (containsSpam _); [discriminate|].
    unfold file_validation.
    destruct (attachment (parse_data fd)) as [[s|f]|]; try discriminate.
    destruct (f_size f >? 0); [|discriminate].
    destruct (negb _); [discriminate|].
    destruct (f_size f >? maxFileSize); discriminate.
Qed.

Lemma missing_required_fields_rejected_witness :
  (POST empty_store
     (Sample.request (Some "203.0.113.7") 1000
        [("service", FString "Testing"); ("message", FString "Hello")])).1.2
  = missing_fields_response.
Proof.
  apply (missing_required_fields_rejected empty_store
           (Sample.request (Some "203.0.113.7") 1000
              [("service", FString "Testing"); ("message", FString "Hello")])
           [("service", FString "Testing"); ("message", FString "Hello")]).
  - eexists _, _. reflexivity.
  - reflexivity.
  - reflexivity.
  - right. right. left. left. reflexivity.
Defined.

(** ** Attachments *)

(** The type is checked before the size: an attachment larger than 10 MiB
    whose type is not allowed is rejected for its type. *)
Lemma oversized_image_is_rejected_by_type :
  has_attachment (parse_data (Sample.with_file "image/png" (11 * 1024 * 1024)))
  = true
  ∧ 11 * 1024 * 1024 > 10 * 1024 * 1024
  ∧ (POST empty_store
       (Sample.request (Some "203.0.113.7") 1000
          (Sample.with_file "image/png" (11 * 1024 * 1024)))).1.2
    = invalid_file_type_response
  ∧ invalid_file_type_response ≠ file_too_large_response.
Proof.
  repeat split. discriminate.
Qed.

(** C5. For a submission that reaches the file validation, the checks of
    the attachment run in the order of the code, the type and then the
    size: an attachment that is present and not empty and whose declared
    type is outside the allowed set is rejected with HTTP 400 and the
    invalid-file-type error; one of an allowed type that is larger than
    10 * 1024 * 1024 bytes is rejected with HTTP 400 and the
    file-too-large error; one of an allowed type of at most that size
    passes; and a submission without attachment or with an empty one
    passes. *)
Theorem attachment_policy
    (st : Store) (rq : Request) (fd : FormData) :
  passes_gate st rq ->
  formData rq = Some fd ->
  reaches_file_validation (parse_data fd) ->
  (∀ f, attachment (parse_data fd) = Some (FFile f) ->
        0 < f_size f ->
        array_includes allowedTypes (f_type f) = false ->
        (POST st rq).1.2 = invalid_file_type_response
        ∧ r_status (POST st rq).1.2 = 400)
  ∧ (∀ f, attachment (parse_data fd) = Some (FFile f) ->
          array_includes allowedTypes (f_type f) = true ->
          10 * 1024 * 1024 < f_size f ->
          (POST st rq).1.2 = file_too_large_response
          ∧ r_status (POST st rq).1.2 = 400)
  ∧ (∀ f, attachment (parse_data fd) = Some (FFile f) ->
          array_includes allowedTypes (f_type f) = true ->
          0 < f_size f <= 10 * 1024 * 1024 ->
          (POST st rq).1.2 = success_response)
  ∧ (attachment (parse_data fd) = None ->
     (POST st rq).1.2 = success_response)
  ∧ (∀ f, attachment (parse_data fd) = Some (FFile f) ->
          f_size f = 0 ->
          (POST st rq).1.2 = success_response).
Proof.
  intros (st1 & p & Hg) Hfd (Hw & Hm & He & Hs).
  rewrite (POST_parsed st rq st1 p fd Hg Hfd Hw), Hm, He, Hs. cbn [negb].
  unfold file_validation, maxFileSize.
  split; [|split; [|split; [|split]]].
  - intros f -> Hpos ->.
    destruct (Z.gtb_spec (f_size f) 0); [split; reflexivity|lia].
  - intros f -> -> Hbig. destruct (Z.gtb_spec (f_size f) 0); [|lia].
    cbn [negb].
    destruct (Z.gtb_spec (f_size f) (10 * 1024 * 1024));
      [split; reflexivity|lia].
  - intros f -> -> Hsz. destruct (Z.gtb_spec (f_size f) 0); [|lia].
    cbn [negb].
    destruct (Z.gtb_spec (f_size f) (10 * 1024 * 1024)); [lia|reflexivity].
  - intros ->. reflexivity.
  - intros f -> ->. reflexivity.
Qed.

Lemma attachment_policy_witness :
  (POST empty_store
     (Sample.request (Some "203.0.113.7") 1000
        (Sample.with_file "application/pdf" (5 * 1024 * 1024)))).1.2
  = success_response.
Proof.
  refine (proj1 (proj2 (proj2 (attachment_policy empty_store
           (Sample.request (Some "203.0.113.7") 1000
              (Sample.with_file "application/pdf" (5 * 1024 * 1024)))
           (Sample.with_file "application/pdf" (5 * 1024 * 1024)) _ _ _)))
          {| f_name := "brief"; f_type := "application/pdf";
             f_size := 5 * 1024 * 1024 |} _ _ _).
  - eexists _, _. reflexivity.
  - reflexivity.
  - repeat split.
  - reflexivity.
  - reflexivity.
  - cbn. lia.
Defined.

(** ** Dispatch *)

Lemma valid_submission_with_fetch rq outcome :
  valid_submission (with_fetch rq outcome) = valid_submission rq.
Proof. reflexivity. Qed.

(** With a webhook configured the notification is one [fetch], whatever
    comes of it. *)
Lemma dispatch_webhook data ip rq url :
  webhookUrl rq = Some url ->
  url ≠ "" ->
  ∃ payload, webhook_calls (dispatch data ip rq) = [Fetch url payload].
Proof.
  intros Hurl Hne. unfold dispatch. rewrite Hurl.
  apply String.eqb_neq in Hne. rewrite Hne. cbn [negb].
  eexists. cbn.
  destruct (fetchResult rq) as [|status]; [reflexivity|].
  destruct (response_ok status); reflexivity.
Qed.

(** C7. For every valid, non-spam submission with a webhook URL
    configured, the outcome of the webhook call changes nothing for the
    submitter: whether [fetch] throws or resolves, with a 2xx status or
    any other, the webhook has been called once, the store is the same and
    the response is HTTP 200 with success = true and the confirmation
    message. *)
Theorem webhook_failure_not_surfaced
    (st : Store) (rq : Request) (url : string) (outcome : FetchResult) :
  passes_gate st rq ->
  valid_submission rq = true ->
  webhookUrl rq = Some url ->
  url ≠ "" ->
  (POST st (with_fetch rq outcome)).1.2 = success_response
  ∧ r_status (POST st (with_fetch rq outcome)).1.2 = 200
  ∧ r_success (r_body (POST st (with_fetch rq outcome)).1.2) = true
  ∧ r_message (r_body (POST st (with_fetch rq outcome)).1.2)
    = Some "Your message has been sent successfully. We'll get back to you within 24 hours."
  ∧ (POST st (with_fetch rq outcome)).1.1 = (POST st rq).1.1
  ∧ ∃ payload,
      webhook_calls (POST st (with_fetch rq outcome)).2 = [Fetch url payload].
Proof.
  intros (st1 & p & Hg) Hv Hurl Hne. unfold POST. cbn [with_fetch clientAddress now].
  rewrite Hg.
  destruct (POST_body_valid st1 p rq Hv) as (fd & Hfd & ->).
  destruct (POST_body_valid st1 p (with_fetch rq outcome) Hv)
    as (fd' & Hfd' & ->).
  cbn. repeat split.
  apply dispatch_webhook; assumption.
Qed.

Lemma webhook_failure_not_surfaced_witness :
  (POST empty_store
     (with_fetch (Sample.from "203.0.113.7" 1000) FetchRejects)).1.2
  = success_response
  ∧ (POST empty_store
       (with_fetch (Sample.from "203.0.113.7" 1000) (FetchResolves 503))).1.2
    = success_response.
Proof.
  split.
  - apply (webhook_failure_not_surfaced empty_store
             (Sample.from "203.0.113.7" 1000)
             "https://hooks.example.org/contact" FetchRejects).
    + eexists _, _. reflexivity.
    + reflexivity.
    + reflexivity.
    + discriminate.
  - apply (webhook_failure_not_surfaced empty_store
             (Sample.from "203.0.113.7" 1000)
             "https://hooks.example.org/contact" (FetchResolves 503)).
    + eexists _, _. reflexivity.
    + reflexivity.
    + reflexivity.
    + discriminate.
Defined.

(** ** What a request that is not accepted leaves behind *)


Lemma reachable_run st rqs : reachable st -> reachable (run st rqs).1.
Proof.
  revert st. induction rqs as [|rq rqs IH]; intros st Hst; cbn; [exact Hst|].
  pose proof (reachable_POST st rq Hst) as H1.
  destruct (POST st rq) as [[st1 resp] es]. cbn in H1.
  specialize (IH st1 H1). destruct (run st1 rqs). exact IH.
Qed.




(** ** The threshold *)

(** A handler that gets past the gate has seen a count below the
    threshold. *)
Lemma POST_gate_room st addr t st1 p :
  POST_gate st addr t = (st1, inr p) ->
  count (heap st1 !!! rateLimit p) < 5.
Proof.
  unfold POST_gate.
  destruct (rateLimitStore st !! str_or addr "unknown") as [l|];
    match goal with
    | |- context [if ?c >? ?d then _ else _] => destruct (c >? d)
    end;
    match goal with
    | |- context [if ?c >=? 5 then _ else _] => destruct (Z.geb_spec c 5)
    end;
    intros [= <- <-]; cbn; assumption.
Qed.

Lemma POST_gate_counts st addr t st1 out :
  POST_gate st addr t = (st1, out) ->
  Forall (λ r, count r <= 5) (heap st) ->
  Forall (λ r, count r <= 5) (heap st1).
Proof.
  unfold POST_gate. intros Hg Hall.
  destruct (rateLimitStore st !! str_or addr "unknown") as [l|];
    match type of Hg with
    | context [if ?c >? ?d then _ else _] => destruct (c >? d)
    end;
    match type of Hg with
    | context [if ?c >=? 5 then _ else _] => destruct (c >=? 5)
    end;
    injection Hg as <- <-; cbn;
    repeat first [ apply Forall_insert | apply Forall_app_2
                 | apply Forall_cons_2 | apply Forall_nil_2 ];
    cbn; solve [assumption | lia].
Qed.

(** Served one at a time, requests never take a count past the threshold:
    the count is raised by the handler that has just seen it below. *)
Lemma threshold_kept_one_at_a_time st :
  reachable st ->
  ∀ ip r, record_of st ip = Some r -> count r <= 5.
Proof.
  intros Hreach.
  assert (Hall : Forall (λ r, count r <= 5) (heap st)).
  { induction Hreach as [|st rq _ IH]; [constructor|].
    unfold POST.
    destruct (POST_gate st (clientAddress rq) (now rq)) as [st1 out] eqn:Hg.
    pose proof (POST_gate_counts _ _ _ _ _ Hg IH) as H1.
    destruct out as [resp|p]; [exact H1|].
    pose proof (POST_gate_room _ _ _ _ _ Hg) as Hroom.
    destruct (valid_submission rq) eqn:Hv.
    - destruct (POST_body_valid st1 p rq Hv) as (fd & _ & ->). cbn.
      apply Forall_insert; [exact H1|]. cbn. lia.
    - destruct (POST_body_store st1 p rq Hv) as (-> & _). exact H1. }
  intros ip r (l & _ & Hr)%record_of_Some.
  rewrite Forall_lookup in Hall. exact (Hall l r Hr).
Qed.

(** Requests served one at a time are a special case of handlers that may
    overlap. *)
Lemma serves_POST st rq resps :
  serves {| shared := st; inflight := [] |} resps ->
  serves {| shared := (POST st rq).1.1; inflight := [] |}
         (resps ++ [(POST st rq).1.2]).
Proof.
  intros Hs. unfold POST.
  destruct (POST_gate st (clientAddress rq) (now rq)) as [st1 [resp|p]] eqn:Hg.
  - exact (serves_rejected {| shared := st; inflight := [] |} _ _ _ _ _ Hs Hg).
  - pose proof (serves_suspended {| shared := st; inflight := [] |}
                  _ _ _ _ _ Hs Hg) as Hs1.
    destruct (POST_body st1 p rq) as [[st2 resp] es] eqn:Hb.
    exact (serves_resumed {| shared := st1; inflight := [p] |} _ 0 p rq
             st2 resp es Hs1 eq_refl Hb).
Qed.

Lemma serves_run rqs : ∀ st resps,
  serves {| shared := st; inflight := [] |} resps ->
  serves {| shared := (run st rqs).1; inflight := [] |}
         (resps ++ (run st rqs).2).
Proof.
  induction rqs as [|rq rqs IH]; intros st resps Hs; cbn.
  - rewrite app_nil_r. exact Hs.
  - pose proof (serves_POST st rq resps Hs) as H1.
    destruct (POST st rq) as [[st1 resp] es]. cbn in H1.
    specialize (IH st1 _ H1).
    destruct (run st1 rqs) as [st2 resps2]. cbn in *.
    rewrite <- app_assoc in IH. exact IH.
Qed.

(** C8. The invariant that no record ever has a count above 5 does not
    hold of the handler: it checks the count before
    [await request.formData()] and raises it afterwards, so two requests
    of one identity that are both taken up while the count is 4 both find
    room and both raise it.  Four accepted submissions, then a fifth and a
    sixth that are past the gate before either body has been read, leave
    a count of 6 in the store, and all six are answered with the
    confirmation and HTTP 200. *)
Theorem overlapping_handlers_pass_threshold :
  ∃ c, serves c (replicate 6 success_response)
       ∧ inflight c = []
       ∧ record_of (shared c) "203.0.113.7"
         = Some {| count := 6; resetTime := 3601000 |}.
Proof.
  pose (a := Sample.from "203.0.113.7" 5000).
  pose (b := Sample.from "203.0.113.7" 5001).
  pose (first4 := [Sample.from "203.0.113.7" 1000;
                   Sample.from "203.0.113.7" 2000;
                   Sample.from "203.0.113.7" 3000;
                   Sample.from "203.0.113.7" 4000]).
  pose proof (serves_run first4 empty_store [] serves_initial) as H4.
  assert (Hr4 : (run empty_store first4).2 = replicate 4 success_response)
    by (vm_compute; reflexivity).
  rewrite Hr4 in H4. clear Hr4. cbn [app] in H4.
  set (st4 := (run empty_store first4).1) in *.
  (* both handlers pass the gate on a count of 4 *)
  destruct (POST_gate st4 (clientAddress a) (now a)) as [stA outA] eqn:HA.
  assert (HoutA : outA = inr {| clientIP := "203.0.113.7"; rateLimit := 0 |})
    by (vm_compute in HA; congruence).
  subst outA.
  destruct (POST_gate stA (clientAddress b) (now b)) as [stB outB] eqn:HB.
  assert (HoutB : outB = inr {| clientIP := "203.0.113.7"; rateLimit := 0 |}).
  { assert (stA = st4) as -> by (vm_compute in HA; vm_compute; congruence).
    vm_compute in HB; congruence. }
  subst outB.
  (* then both bodies arrive *)
  destruct (POST_body stB {| clientIP := "203.0.113.7"; rateLimit := 0 |} a)
    as [[stA' respA] esA] eqn:HA'.
  destruct (POST_body stA' {| clientIP := "203.0.113.7"; rateLimit := 0 |} b)
    as [[stB' respB] esB] eqn:HB'.
  pose proof (serves_suspended _ _ _ _ _ _ H4 HA) as H5.
  pose proof (serves_suspended _ _ _ _ _ _ H5 HB) as H6.
  pose proof (serves_resumed _ _ 1 _ a _ _ _ H6 eq_refl HA') as H7.
  pose proof (serves_resumed _ _ 0 _ b _ _ _ H7 eq_refl HB') as H8.
  cbn in H8.
  vm_compute in HA. injection HA as <-.
  vm_compute in HB. injection HB as <-.
  vm_compute in HA'. injection HA' as <- <- _.
  vm_compute in HB'. injection HB' as <- <- _.
  eexists. split; [exact H8|]. split; [reflexivity|].
  vm_compute. reflexivity.
Qed.

(** ** Clients without address *)

Lemma anonymous_key rq : anonymous rq -> client_key rq = "unknown".
Proof.
  unfold client_key. intros [-> | ->]; reflexivity.
Qed.

(** Once the count of an identity is at the threshold, whatever is served
    next, one request at a time and from whichever client, every request
    of that identity inside the window is turned away. *)
Lemma run_limited ip r : ∀ further st,
  well_formed st ->
  record_of st ip = Some r ->
  5 <= count r ->
  Forall (λ rq, client_key rq = ip -> now rq <= resetTime r) further ->
  Forall2 (λ rq resp, client_key rq = ip -> resp = too_many_response)
    further (run st further).2
  ∧ record_of (run st further).1 ip = Some r.
Proof.
  induction further as [|rq further IH]; intros st Hwf Hr Hfull Hin; cbn.
  - split; [constructor|exact Hr].
  - apply Forall_cons in Hin as [Hin1 Hin].
    destruct (decide (client_key rq = ip)) as [Hk|Hk].
    + assert (HP : POST st rq = (st, too_many_response, [])).
      { apply (POST_limited st rq r); [rewrite Hk; exact Hr|auto|exact Hfull]. }
      rewrite HP. destruct (IH st Hwf Hr Hfull Hin) as [IH1 IH2].
      destruct (run st further) as [st' resps]. cbn in *.
      split; [constructor; auto|exact IH2].
    + destruct (POST_inv st rq Hwf) as [Hwf1 Hfr].
      specialize (Hfr ip ltac:(congruence)).
      destruct (POST st rq) as [[st1 resp] es]. cbn in *.
      rewrite <- Hfr in Hr.
      destruct (IH st1 Hwf1 Hr Hfull Hin) as [IH1 IH2].
      destruct (run st1 further) as [st' resps]. cbn in *.
      split; [constructor; [intros; contradiction|exact IH1]|exact IH2].
Qed.

(** Served one after the other.  A client whose address is absent or
    empty is counted under the key "unknown", so all such clients share
    one record: after five accepted submissions from such clients within
    one window, each answered before the next is taken up, every further
    request of a client without address is answered with HTTP 429 for the
    rest of the window - that is, as long as the requests counted under
    "unknown" come before the reset time - whatever other requests are
    served in between. *)
Theorem unknown_bucket_is_shared
    (st : Store) (first : Request) (next4 further : list Request) :
  reachable st ->
  no_open_window st "unknown" (now first) ->
  length next4 = 4%nat ->
  Forall (λ rq, anonymous rq ∧ valid_submission rq = true) (first :: next4) ->
  Forall (λ rq, now rq <= now first + window) next4 ->
  Forall (λ rq, client_key rq = "unknown" -> now rq <= now first + window)
    further ->
  (∀ rq, anonymous rq -> client_key rq = "unknown")
  ∧ (run st (first :: next4)).2 = replicate 5 success_response
  ∧ record_of (run st (first :: next4)).1 "unknown"
    = Some {| count := 5; resetTime := now first + window |}
  ∧ Forall2 (λ rq resp, anonymous rq ->
                        resp = too_many_response ∧ r_status resp = 429)
      further (run (run st (first :: next4)).1 further).2.
Proof.
  intros Hreach Hnone Hlen Hall Hin4 Hfur.
  split; [exact anonymous_key|].
  assert (Hkeys : Forall (λ rq, client_key rq = "unknown") (first :: next4)).
  { eapply Forall_impl; [exact Hall|]. intros rq [Ha _].
    apply anonymous_key, Ha. }
  pose proof (reachable_well_formed _
                (reachable_run st (first :: next4) Hreach)) as Hwf.
  apply Forall_cons in Hall as [[Ha1 Hv1] Hall4].
  apply Forall_cons in Hkeys as [Hk1 Hk4].
  rewrite <- Hk1 in Hnone.
  destruct (POST_window_start st first Hnone Hv1) as (st1 & es1 & HP1 & Hr1).
  rewrite Hk1 in Hr1.
  destruct (run_open "unknown" next4 st1 _ Hr1) as (st5 & Hrun & Hr5).
  { rewrite Forall_forall in Hall4, Hk4, Hin4. apply Forall_forall.
    intros rq Hrq. destruct (Hall4 rq Hrq) as [_ Hv]. cbn. auto. }
  { rewrite Hlen. cbn. lia. }
  rewrite Hlen in Hrun, Hr5. cbn in Hr5.
  revert Hwf. cbn [run]. rewrite HP1, Hrun. cbn. intros Hwf.
  split; [reflexivity|]. split; [exact Hr5|].
  destruct (run_limited "unknown" _ further st5 Hwf Hr5 ltac:(cbn; lia) Hfur)
    as [Hlim _].
  eapply Forall2_impl; [exact Hlim|]. cbn.
  intros rq resp Himp Ha. rewrite (Himp (anonymous_key rq Ha)).
  split; reflexivity.
Qed.

Lemma unknown_bucket_is_shared_witness :
  Forall2 (λ rq resp, anonymous rq ->
                      resp = too_many_response ∧ r_status resp = 429)
    [Sample.nameless None 6000; Sample.from "203.0.113.7" 7000;
     Sample.nameless (Some "") 8000]
    (run (run empty_store
            (Sample.nameless None 1000
             :: [Sample.nameless (Some "") 2000; Sample.nameless None 3000;
                 Sample.nameless None 4000; Sample.nameless (Some "") 5000])).1
       [Sample.nameless None 6000; Sample.from "203.0.113.7" 7000;
        Sample.nameless (Some "") 8000]).2.
Proof.
  apply (unknown_bucket_is_shared empty_store (Sample.nameless None 1000)
           [Sample.nameless (Some "") 2000; Sample.nameless None 3000;
            Sample.nameless None 4000; Sample.nameless (Some "") 5000]
           [Sample.nameless None 6000; Sample.from "203.0.113.7" 7000;
            Sample.nameless (Some "") 8000]).
  - exact reachable_empty.
  - left. reflexivity.
  - reflexivity.
  - repeat (apply Forall_cons_2); try apply Forall_nil_2;
      (split; [first [left; reflexivity | right; reflexivity]|reflexivity]).
  - repeat constructor; cbn; unfold window; lia.
  - repeat constructor; cbn; unfold window; lia.
Defined.

(** ** Regular expressions: the matcher is exact *)

Lemma append_nil_l s : "" +:+ s = s.
Proof. reflexivity. Qed.

Lemma append_cons c s t : String c s +:+ t = String c (s +:+ t).
Proof. reflexivity. Qed.

Lemma append_nil_r s : s +:+ "" = s.
Proof.
  induction s as [|c s IH]; [reflexivity|]. rewrite append_cons, IH.
  reflexivity.
Qed.

Lemma append_assoc s1 s2 s3 : (s1 +:+ s2) +:+ s3 = s1 +:+ (s2 +:+ s3).
Proof.
  induction s1 as [|c s1 IH]; [reflexivity|]. rewrite !append_cons, IH.
  reflexivity.
Qed.

Lemma append_eq_nil s1 s2 : s1 +:+ s2 = "" -> s1 = "" ∧ s2 = "".
Proof. destruct s1; [auto|rewrite append_cons; discriminate]. Qed.

Lemma nullable_matches r : Regex.nullable r = true <-> matches r "".
Proof.
  induction r as [| |p|r1 IH1 r2 IH2|r1 IH1 r2 IH2|r IH]; simpl.
  - split; [discriminate|]. inversion 1.
  - split; [constructor|reflexivity].
  - split; [discriminate|]. inversion 1.
  - rewrite andb_true_iff, IH1, IH2. split.
    + intros [H1 H2]. exact (matches_seq _ _ "" "" H1 H2).
    + inversion 1 as [| |? ? s1 s2 H1 H2 E1 E2| | | |]; subst.
      apply append_eq_nil in E2 as [-> ->]. auto.
  - rewrite orb_true_iff, IH1, IH2. split.
    + intros [H|H]; [apply matches_alt_l|apply matches_alt_r]; exact H.
    + inversion 1; subst; auto.
  - split; [constructor|reflexivity].
Qed.

(** A match of [Star r] on a non-empty string starts with a non-empty
    match of [r]. *)
Lemma matches_star_cons r c s :
  matches (Regex.Star r) (String c s) ->
  ∃ s1 s2, s = s1 +:+ s2 ∧ matches r (String c s1) ∧ matches (Regex.Star r) s2.
Proof.
  intros H. remember (Regex.Star r) as r' eqn:Er.
  remember (String c s) as t eqn:Et. revert c s Et.
  induction H as [| | | | | |r0 s1 s2 H1 _ H2 IH2]; intros c' s' Et;
    try discriminate.
  injection Er as ->.
  destruct s1 as [|c1 s1]; rewrite ?append_nil_l, ?append_cons in Et.
  - apply (IH2 eq_refl c' s' Et).
  - injection Et as -> <-. eauto.
Qed.

Lemma deriv_matches c r : ∀ s,
  matches (Regex.deriv c r) s <-> matches r (String c s).
Proof.
  induction r as [| |p|r1 IH1 r2 IH2|r1 IH1 r2 IH2|r IH]; intros s; simpl.
  - split; inversion 1.
  - split; inversion 1.
  - destruct (p c) eqn:Hp; split.
    + inversion 1. constructor. exact Hp.
    + inversion 1. constructor.
    + inversion 1.
    + inversion 1; congruence.
  - assert (Hseq : matches (Regex.Seq (Regex.deriv c r1) r2) s
                   <-> ∃ s1 s2, s = s1 +:+ s2 ∧ matches r1 (String c s1)
                                ∧ matches r2 s2).
    { split.
      - inversion 1 as [| |? ? s1 s2 H1 H2| | | |]; subst.
        apply IH1 in H1. eauto.
      - intros (s1 & s2 & -> & H1 & H2). constructor; [apply IH1|]; assumption. }
    assert (Hgoal : matches (Regex.Seq r1 r2) (String c s)
                    <-> (∃ s1 s2, s = s1 +:+ s2 ∧ matches r1 (String c s1)
                                  ∧ matches r2 s2)
                        ∨ (matches r1 "" ∧ matches r2 (String c s))).
    { split.
      - inversion 1 as [| |? ? s1 s2 H1 H2 E1 E2| | | |]; subst.
        destruct s1 as [|c1 s1]; rewrite ?append_nil_l, ?append_cons in E2.
        + right. subst s2. auto.
        + injection E2 as -> <-. left. eauto.
      - intros [(s1 & s2 & -> & H1 & H2)|[H1 H2]].
        + exact (matches_seq _ _ (String c s1) s2 H1 H2).
        + exact (matches_seq _ _ "" (String c s) H1 H2). }
    rewrite Hgoal. destruct (Regex.nullable r1) eqn:Hn.
    + apply nullable_matches in Hn. split.
      * inversion 1; subst; [left; apply Hseq; assumption|].
        right. split; [exact Hn|apply IH2; assumption].
      * intros [H|[_ H]]; [apply matches_alt_l, Hseq, H|].
        apply matches_alt_r, IH2, H.
    + rewrite Hseq. split; [auto|]. intros [H|[H _]]; [exact H|].
      apply nullable_matches in H. congruence.
  - split.
    + inversion 1; subst;
        [apply matches_alt_l, IH1|apply matches_alt_r, IH2]; assumption.
    + inversion 1; subst;
        [apply matches_alt_l, IH1|apply matches_alt_r, IH2]; assumption.
  - split.
    + inversion 1 as [| |? ? s1 s2 H1 H2| | | |]; subst.
      apply IH in H1. exact (matches_star_more _ (String c s1) s2 H1 H2).
    + intros (s1 & s2 & -> & H1 & H2)%matches_star_cons.
      constructor; [apply IH|]; assumption.
Qed.

(** [Regex.test] accepts exactly the strings the expression stands for. *)
Lemma test_matches s : ∀ r, Regex.test r s = true <-> matches r s.
Proof.
  induction s as [|c s IH]; intros r; simpl.
  - apply nullable_matches.
  - rewrite IH. apply deriv_matches.
Qed.

(** A class repeated once or more: a non-empty string of that class. *)
Lemma matches_star_class p s :
  matches (Regex.Star (Regex.Class p)) s <-> all_in p s = true.
Proof.
  split.
  - intros H. remember (Regex.Star (Regex.Class p)) as r eqn:Er.
    induction H as [| | | | | |r0 s1 s2 H1 _ H2 IH2]; try discriminate;
      [reflexivity|].
    injection Er as ->. inversion H1; subst.
    rewrite append_cons, append_nil_l. simpl.
    rewrite IH2 by reflexivity. rewrite andb_true_r. assumption.
  - induction s as [|c s IH]; simpl; [constructor|].
    intros [Hc Hs]%andb_true_iff.
    exact (matches_star_more _ (String c "") s (matches_class p c Hc) (IH Hs)).
Qed.

Lemma matches_plus_class p s :
  matches (Regex.Plus (Regex.Class p)) s <-> s ≠ "" ∧ all_in p s = true.
Proof.
  unfold Regex.Plus. split.
  - inversion 1 as [| |? ? s1 s2 H1 H2| | | |]; subst.
    inversion H1; subst. rewrite append_cons, append_nil_l.
    apply matches_star_class in H2.
    split; [discriminate|]. simpl. rewrite H2, andb_true_r. assumption.
  - intros [Hne Hall]. destruct s as [|c s]; [congruence|].
    simpl in Hall. apply andb_true_iff in Hall as [Hc Hs].
    exact (matches_seq _ _ (String c "") s (matches_class p c Hc)
             (proj2 (matches_star_class p s) Hs)).
Qed.

Lemma matches_chr c s : matches (Regex.Chr c) s <-> s = String c "".
Proof.
  unfold Regex.Chr. split.
  - inversion 1 as [|? c' Hc| | | | |]; subst.
    apply Ascii.eqb_eq in Hc. congruence.
  - intros ->. constructor. apply Ascii.eqb_refl.
Qed.

Lemma matches_seq_inv r1 r2 s :
  matches (Regex.Seq r1 r2) s
  <-> ∃ s1 s2, s = s1 +:+ s2 ∧ matches r1 s1 ∧ matches r2 s2.
Proof.
  split.
  - inversion 1; subst. eauto.
  - intros (s1 & s2 & -> & H1 & H2). constructor; assumption.
Qed.

(** ** The e-mail address *)

(** X1. The regular expression of line 96 accepts exactly the strings of
    the form [a@b.c] in which [a], [b] and [c] are non-empty and hold
    neither white space nor [@]. *)
Theorem email_pattern (s : string) :
  Regex.test emailRegex s = true <-> address_shaped s.
Proof.
  rewrite test_matches. unfold emailRegex, address_shaped, address_part.
  split.
  - intros (a & s1 & -> & Ha & H1)%matches_seq_inv.
    apply matches_seq_inv in H1 as (x & s2 & -> & Hx & H2).
    apply matches_seq_inv in H2 as (b & s3 & -> & Hb & H3).
    apply matches_seq_inv in H3 as (y & c & -> & Hy & Hc).
    apply matches_chr in Hx as ->. apply matches_chr in Hy as ->.
    apply matches_plus_class in Ha, Hb, Hc.
    exists a, b, c. auto.
  - intros (a & b & c & -> & Ha & Hb & Hc).
    apply matches_plus_class in Ha, Hb, Hc.
    repeat (apply matches_seq; [first [assumption | apply matches_chr; reflexivity]|]).
    assumption.
Qed.

(** ** What the handler answers *)

(** The gate binds no key. *)
Lemma POST_gate_keys st addr t st1 out :
  POST_gate st addr t = (st1, out) ->
  rateLimitStore st1 = rateLimitStore st.
Proof.
  unfold POST_gate. intros Hg.
  destruct (rateLimitStore st !! _); cbn zeta in Hg;
    repeat match type of Hg with
           | context [if ?c then _ else _] => destruct c
           end; injection Hg as <- _; reflexivity.
Qed.

(** X2. Past the gate, with the body parsed, the honeypot empty and the
    five required fields present, a submission whose e-mail fails the
    regular expression is answered with HTTP 400 and the invalid-address
    error, whatever else it holds - keywords, attachment; no key of the
    store is bound and no webhook is called. *)
Theorem invalid_email_rejected
    (st : Store) (rq : Request) (fd : FormData) :
  passes_gate st rq ->
  formData rq = Some fd ->
  truthy (website (parse_data fd)) = false ->
  missing_required (parse_data fd) = false ->
  Regex.test emailRegex (toString (email (parse_data fd))) = false ->
  (POST st rq).1.2 = invalid_email_response
  ∧ r_status (POST st rq).1.2 = 400
  ∧ r_error (r_body (POST st rq).1.2) = Some "Invalid email address"
  ∧ rateLimitStore (POST st rq).1.1 = rateLimitStore st
  ∧ webhook_calls (POST st rq).2 = [].
Proof.
  intros (st1 & p & Hg) Hfd Hw Hm Ht.
  assert (Hv : valid_submission rq = false).
  { unfold valid_submission. rewrite Hfd. cbn zeta. rewrite Hw, Hm, Ht.
    reflexivity. }
  rewrite (POST_parsed st rq st1 p fd Hg Hfd Hw), Hm, Ht. cbn [negb].
  destruct (POST_invalid st rq st1 p Hg Hv) as (-> & _ & _ & Hcalls).
  repeat split; [|exact Hcalls].
  exact (POST_gate_keys _ _ _ _ _ Hg).
Qed.

Lemma invalid_email_rejected_witness :
  (POST empty_store
     (Sample.request (Some "203.0.113.7") 1000
        (Sample.with_email "asha.example.org"))).1.2
  = invalid_email_response.
Proof.
  apply (invalid_email_rejected empty_store
           (Sample.request (Some "203.0.113.7") 1000
              (Sample.with_email "asha.example.org"))
           (Sample.with_email "asha.example.org")).
  - eexists _, _. reflexivity.
  - reflexivity.
  - reflexivity.
  - reflexivity.
  - reflexivity.
Defined.

(** The four ways through the gate. *)
Lemma POST_gate_cases st addr t :
  well_formed st ->
  (rateLimitStore st !! str_or addr "unknown" = None
   ∧ POST_gate st addr t =
       ({| heap := heap st ++ [{| count := 0; resetTime := t + window |}];
           rateLimitStore := rateLimitStore st |},
        inr {| clientIP := str_or addr "unknown";
               rateLimit := length (heap st) |}))
  ∨ ∃ l r,
      rateLimitStore st !! str_or addr "unknown" = Some l
      ∧ heap st !! l = Some r
      ∧ ((t <= resetTime r ∧ 5 <= count r
          ∧ POST_gate st addr t = (st, inl too_many_response))
         ∨ (t <= resetTime r ∧ count r < 5
            ∧ POST_gate st addr t =
                (st, inr {| clientIP := str_or addr "unknown";
                            rateLimit := l |}))
         ∨ (resetTime r < t
            ∧ POST_gate st addr t =
                ({| heap := <[l := {| count := 0;
                                      resetTime := t + window |}]> (heap st);
                    rateLimitStore := rateLimitStore st |},
                 inr {| clientIP := str_or addr "unknown";
                        rateLimit := l |}))).
Proof.
  intros [Hb _].
  destruct (rateLimitStore st !! str_or addr "unknown") as [l|] eqn:Hl.
  - right. destruct (lookup_lt_is_Some_2 (heap st) l (Hb _ _ Hl)) as [r Hr].
    exists l, r. split; [reflexivity|]. split; [exact Hr|].
    destruct (Z_le_gt_dec t (resetTime r)) as [Hopen|Hexp].
    + pose proof (POST_gate_open st addr t l r Hl Hr Hopen) as Hg.
      destruct (Z.geb_spec (count r) 5); [left|right; left]; auto.
    + right. right. split; [lia|].
      apply (POST_gate_expired st addr t l r Hl Hr). lia.
  - left. split; [reflexivity|]. apply POST_gate_absent. exact Hl.
Qed.

(** What the pipeline behind the gate answers. *)
Lemma POST_body_response st p rq :
  (POST_body st p rq).1.2 =
    match formData rq with
    | None => unexpected_error_response
    | Some fd =>
        if truthy (website (parse_data fd)) then spam_response
        else if missing_required (parse_data fd) then missing_fields_response
        else if negb (Regex.test emailRegex (toString (email (parse_data fd))))
        then invalid_email_response
        else if containsSpam (parse_data fd) then spam_response
        else match file_validation (parse_data fd) with
             | Some resp => resp
             | None => success_response
             end
    end.
Proof.
  unfold POST_body. destruct (formData rq) as [fd|]; [|reflexivity].
  cbn zeta. destruct (truthy _); [reflexivity|].
  destruct (missing_required _); [reflexivity|].
  destruct (negb _); [reflexivity|].
  destruct (containsSpam _); [reflexivity|].
  destruct (file_validation _); reflexivity.
Qed.

Lemma file_validation_response data resp :
  file_validation data = Some resp ->
  resp = invalid_file_type_response ∨ resp = file_too_large_response.
Proof.
  unfold file_validation.
  destruct (attachment data) as [[s|f]|]; try discriminate.
  destruct (f_size f >? 0); [|discriminate].
  destruct (negb _); [intros [= <-]; auto|].
  destruct (f_size f >? maxFileSize); [intros [= <-]; auto|discriminate].
Qed.

Lemma POST_response_known st rq : In (POST st rq).1.2 responses.
Proof.
  unfold POST.
  destruct (POST_gate st (clientAddress rq) (now rq)) as [st1 [resp|p]] eqn:Hg.
  - cbn. left. unfold POST_gate in Hg.
    destruct (rateLimitStore st !! _); cbn zeta in Hg;
      repeat match type of Hg with
             | context [if ?c then _ else _] => destruct c
             end; congruence.
  - rewrite POST_body_response. unfold responses.
    destruct (formData rq) as [fd|]; [|cbn; tauto].
    destruct (truthy _); [cbn; tauto|].
    destruct (missing_required _); [cbn; tauto|].
    destruct (negb _); [cbn; tauto|].
    destruct (containsSpam _); [cbn; tauto|].
    destruct (file_validation _) as [resp|] eqn:Hf; [|cbn; tauto].
    apply file_validation_response in Hf as [-> | ->]; cbn; tauto.
Qed.

(** X3. Whatever the request and whatever the store, the response is JSON
    with one of the status codes 200, 400, 429 and 500; success is true
    exactly for status 200; an error text is present exactly when success
    is false; and only the confirmation has a message. *)
Theorem response_contract (st : Store) (rq : Request) :
  In (r_status (POST st rq).1.2) [200; 400; 429; 500]
  ∧ r_headers (POST st rq).1.2 = [("Content-Type", "application/json")]
  ∧ (r_success (r_body (POST st rq).1.2) = true
     <-> r_status (POST st rq).1.2 = 200)
  ∧ (r_error (r_body (POST st rq).1.2) = None
     <-> r_success (r_body (POST st rq).1.2) = true)
  ∧ (r_message (r_body (POST st rq).1.2) ≠ None
     -> (POST st rq).1.2 = success_response).
Proof.
  pose proof (POST_response_known st rq) as H. unfold responses in H.
  cbn [In] in H.
  repeat (destruct H as [<-|H]; [cbn; intuition (discriminate || congruence)|]).
  contradiction.
Qed.

Lemma POST_gate_inl st addr t st1 resp :
  POST_gate st addr t = (st1, inl resp) -> resp = too_many_response.
Proof.
  unfold POST_gate. intros Hg.
  destruct (rateLimitStore st !! _); cbn zeta in Hg;
    repeat match type of Hg with
           | context [if ?c then _ else _] => destruct c
           end; congruence.
Qed.

Lemma POST_gate_inr st addr t st1 p :
  POST_gate st addr t = (st1, inr p) -> clientIP p = str_or addr "unknown".
Proof.
  unfold POST_gate. intros Hg.
  destruct (rateLimitStore st !! _); cbn zeta in Hg;
    repeat match type of Hg with
           | context [if ?c then _ else _] => destruct c
           end; try discriminate; injection Hg as _ <-; reflexivity.
Qed.

Lemma POST_body_status st p rq : r_status (POST_body st p rq).1.2 ≠ 429.
Proof.
  destruct (valid_submission rq) eqn:Hv.
  - destruct (POST_body_valid st p rq Hv) as (fd & _ & ->). discriminate.
  - apply POST_body_store, Hv.
Qed.

(** X4. In a store that requests served one at a time have led to, a
    request is answered with HTTP 429 exactly when its identity has a
    record whose window is still open and whose count is 5 or more; this
    holds whatever the request carries - valid, spam, invalid or not even
    parsable - and then nothing is written, logged or sent. *)
Theorem too_many_exactly_when_limited (st : Store) (rq : Request) :
  reachable st ->
  (r_status (POST st rq).1.2 = 429 <-> limited st rq)
  ∧ (limited st rq -> POST st rq = (st, too_many_response, [])).
Proof.
  intros Hwf%reachable_well_formed. split.
  - unfold limited, POST, client_key.
    destruct (POST_gate_cases st (clientAddress rq) (now rq) Hwf)
      as [[Hnone ->]|(l & r & Hl & Hr & [(Ho & Hc & ->)|[(Ho & Hc & ->)|(He & ->)]])].
    + split; [intros H; destruct (POST_body_status _ _ _ H)|].
      intros (r & Hrec & _). rewrite (record_of_None _ _ Hnone) in Hrec.
      discriminate.
    + split; [|reflexivity]. intros _. exists r. split; [|auto].
      apply record_of_Some. eauto.
    + split; [intros H; destruct (POST_body_status _ _ _ H)|].
      intros (r' & (l' & Hl' & Hr')%record_of_Some & _ & Hc'). 
      assert (r' = r) by congruence. subst. lia.
    + split; [intros H; destruct (POST_body_status _ _ _ H)|].
      intros (r' & (l' & Hl' & Hr')%record_of_Some & Ho' & _). 
      assert (r' = r) by congruence. subst. lia.
  - intros (r & Hrec & Ho & Hc). exact (POST_limited st rq r Hrec Ho Hc).
Qed.

Lemma too_many_exactly_when_limited_witness :
  POST (run empty_store (replicate 5 (Sample.from "203.0.113.7" 1000))).1
       (Sample.request (Some "203.0.113.7") 2000 Sample.honeypot)
  = ((run empty_store (replicate 5 (Sample.from "203.0.113.7" 1000))).1,
     too_many_response, []).
Proof.
  apply (too_many_exactly_when_limited
           (run empty_store (replicate 5 (Sample.from "203.0.113.7" 1000))).1
           (Sample.request (Some "203.0.113.7") 2000 Sample.honeypot)).
  - apply reachable_run, reachable_empty.
  - exists {| count := 5; resetTime := 3601000 |}. vm_compute.
    repeat split; discriminate.
Defined.

(** X5. A request is answered with HTTP 500 exactly when it has passed
    the gate and reading its body has failed; the answer is then the
    generic error text, no key of the store is bound and no webhook is
    called. *)
Theorem unexpected_error_exactly_when_unparsed (st : Store) (rq : Request) :
  (r_status (POST st rq).1.2 = 500 <-> passes_gate st rq ∧ formData rq = None)
  ∧ (r_status (POST st rq).1.2 = 500 ->
     (POST st rq).1.2 = unexpected_error_response
     ∧ rateLimitStore (POST st rq).1.1 = rateLimitStore st
     ∧ webhook_calls (POST st rq).2 = []).
Proof.
  unfold passes_gate, POST.
  destruct (POST_gate st (clientAddress rq) (now rq)) as [st1 [resp|p]] eqn:Hg.
  - apply POST_gate_inl in Hg as ->. cbn.
    split; [split|]; try discriminate.
    intros [(? & ? & [=]) _].
  - pose proof (POST_gate_keys _ _ _ _ _ Hg) as Hk.
    destruct (formData rq) as [fd|] eqn:Hfd.
    + assert (Hne : r_status (POST_body st1 p rq).1.2 ≠ 500).
      { rewrite POST_body_response, Hfd.
        destruct (truthy _); [discriminate|].
        destruct (missing_required _); [discriminate|].
        destruct (negb _); [discriminate|].
        destruct (containsSpam _); [discriminate|].
        destruct (file_validation _) as [resp|] eqn:Hf; [|discriminate].
        apply file_validation_response in Hf as [-> | ->]; discriminate. }
      split; [split|]; try contradiction. intros [_ [=]].
    + unfold POST_body. rewrite Hfd. cbn.
      split; [split; eauto|]. intros _. auto.
Qed.

(** ** The notification *)

(** Past the gate a valid submission runs the dispatch for the key of the
    request. *)
Lemma POST_valid st rq :
  passes_gate st rq ->
  valid_submission rq = true ->
  ∃ fd, formData rq = Some fd
        ∧ (POST st rq).1.2 = success_response
        ∧ (POST st rq).2 = dispatch (parse_data fd) (client_key rq) rq.
Proof.
  intros (st1 & p & Hg) Hv. unfold POST. rewrite Hg.
  destruct (POST_body_valid st1 p rq Hv) as (fd & Hfd & ->).
  rewrite (POST_gate_inr _ _ _ _ _ Hg). eauto.
Qed.

Lemma POST_calls_only_if_valid st rq :
  webhook_calls (POST st rq).2 ≠ [] ->
  passes_gate st rq ∧ valid_submission rq = true.
Proof.
  intros Hc. unfold passes_gate. revert Hc. unfold POST.
  destruct (POST_gate st (clientAddress rq) (now rq)) as [st1 [resp|p]] eqn:Hg;
    [cbn; congruence|].
  intros Hc. split; [eauto|].
  destruct (valid_submission rq) eqn:Hv; [reflexivity|].
  destruct (POST_body_store st1 p rq Hv) as (_ & _ & _ & Hnil). congruence.
Qed.

(** X6. The webhook is called only for an accepted submission and only
    when a non-empty URL is configured, and then once: the call goes to
    that URL and carries the subject with the service, the formatted body,
    the parsed fields, the time stamp and the key the client is counted
    under. *)
Theorem webhook_called_only_on_acceptance
    (st : Store) (rq : Request) (e : Effect) :
  In e (webhook_calls (POST st rq).2) ->
  (POST st rq).1.2 = success_response
  ∧ valid_submission rq = true
  ∧ ∃ url fd,
      webhookUrl rq = Some url ∧ url ≠ "" ∧ formData rq = Some fd
      ∧ e = Fetch url (payload_of rq fd)
      ∧ webhook_calls (POST st rq).2 = [e].
Proof.
  intros Hin.
  destruct (POST_calls_only_if_valid st rq) as [Hpass Hv].
  { intros Hnil. rewrite Hnil in Hin. contradiction. }
  destruct (POST_valid st rq Hpass Hv) as (fd & Hfd & Hresp & Heff).
  split; [exact Hresp|]. split; [exact Hv|].
  rewrite Heff in Hin |- *. unfold dispatch in Hin |- *.
  destruct (webhookUrl rq) as [url|]; [|contradiction].
  destruct (String.eqb url "") eqn:Hne; [contradiction|].
  apply String.eqb_neq in Hne.
  cbn [negb] in Hin |- *. exists url, fd.
  assert (Hcalls : ∀ rest,
             (∀ x, In x rest -> is_fetch x = false) ->
             webhook_calls (Fetch url (payload_of rq fd) :: rest)
             = [Fetch url (payload_of rq fd)]).
  { intros rest Hrest. unfold webhook_calls. cbn. f_equal.
    induction rest as [|x rest IH]; [reflexivity|]. cbn.
    rewrite (Hrest x (or_introl eq_refl)). apply IH.
    intros y Hy. apply Hrest. right. exact Hy. }
  unfold payload_of in Hcalls |- *.
  destruct (fetchResult rq) as [|status].
  - rewrite Hcalls in Hin |- * by (intros x [<-|[]]; reflexivity).
    destruct Hin as [<-|[]]. auto.
  - destruct (response_ok status).
    + rewrite Hcalls in Hin |- * by (intros x []).
      destruct Hin as [<-|[]]. auto.
    + rewrite Hcalls in Hin |- * by (intros x [<-|[]]; reflexivity).
      destruct Hin as [<-|[]]. auto.
Qed.

Lemma webhook_called_only_on_acceptance_witness :
  (POST empty_store (Sample.from "203.0.113.7" 1000)).1.2 = success_response.
Proof.
  apply (webhook_called_only_on_acceptance empty_store
           (Sample.from "203.0.113.7" 1000)
           (Fetch "https://hooks.example.org/contact"
              (payload_of (Sample.from "203.0.113.7" 1000) Sample.inquiry))).
  left. reflexivity.
Defined.

(** X7. Without a webhook - the variable unset or set to the empty string
    - an accepted submission is still confirmed with HTTP 200; nothing is
    sent, and the notification is written to the console instead, framed
    by two marker lines. *)
Theorem without_webhook_logged (st : Store) (rq : Request) :
  passes_gate st rq ->
  valid_submission rq = true ->
  webhookUrl rq = None ∨ webhookUrl rq = Some "" ->
  (POST st rq).1.2 = success_response
  ∧ webhook_calls (POST st rq).2 = []
  ∧ ∃ fd, formData rq = Some fd
          ∧ (POST st rq).2 = development_log rq fd.
Proof.
  intros Hpass Hv Hurl.
  destruct (POST_valid st rq Hpass Hv) as (fd & Hfd & Hresp & Heff).
  split; [exact Hresp|]. rewrite Heff. unfold dispatch.
  destruct Hurl as [-> | ->]; (split; [reflexivity|]); eauto.
Qed.

Lemma without_webhook_logged_witness :
  webhook_calls
    (POST empty_store
       {| clientAddress := Some "203.0.113.7"; now := 1000;
          formData := Some Sample.inquiry; webhookUrl := Some "";
          localeTime := "16/9/2025, 9:19:50 am";
          isoTime := "2025-09-16T03:49:50.000Z";
          fetchResult := FetchRejects |}).2 = [].
Proof.
  apply (without_webhook_logged empty_store
           {| clientAddress := Some "203.0.113.7"; now := 1000;
              formData := Some Sample.inquiry; webhookUrl := Some "";
              localeTime := "16/9/2025, 9:19:50 am";
              isoTime := "2025-09-16T03:49:50.000Z";
              fetchResult := FetchRejects |}).
  - eexists _, _. reflexivity.
  - reflexivity.
  - right. reflexivity.
Defined.

(** ** The outcome and the store *)

Lemma POST_body_same st st' p p' rq :
  clientIP p = clientIP p' ->
  (POST_body st p rq).1.2 = (POST_body st' p' rq).1.2
  ∧ (POST_body st p rq).2 = (POST_body st' p' rq).2.
Proof.
  intros Hip. unfold POST_body. rewrite Hip.
  destruct (formData rq) as [fd|]; [|auto]. cbn zeta.
  destruct (truthy _); [auto|].
  destruct (missing_required _); [auto|].
  destruct (negb _); [auto|].
  destruct (containsSpam _); [auto|].
  destruct (file_validation _); auto.
Qed.

(** X8. Once a request is past the gate, its response and everything it
    logs or sends depend on the request alone, not on the store: two
    stores that both let it through give the same response and the same
    effects. *)
Theorem outcome_independent_of_store (st st' : Store) (rq : Request) :
  passes_gate st rq ->
  passes_gate st' rq ->
  (POST st rq).1.2 = (POST st' rq).1.2
  ∧ (POST st rq).2 = (POST st' rq).2.
Proof.
  intros (st1 & p & Hg) (st1' & p' & Hg'). unfold POST. rewrite Hg, Hg'.
  apply POST_body_same.
  rewrite (POST_gate_inr _ _ _ _ _ Hg), (POST_gate_inr _ _ _ _ _ Hg').
  reflexivity.
Qed.

Lemma outcome_independent_of_store_witness :
  (POST empty_store (Sample.from "203.0.113.7" 9000)).1.2
  = (POST (POST empty_store (Sample.from "203.0.113.7" 1000)).1.1
          (Sample.from "203.0.113.7" 9000)).1.2.
Proof.
  apply (outcome_independent_of_store empty_store
           (POST empty_store (Sample.from "203.0.113.7" 1000)).1.1
           (Sample.from "203.0.113.7" 9000)).
  - eexists _, _. reflexivity.
  - eexists _, _. vm_compute. reflexivity.
Defined.

(** ** The records over many requests *)

(** X9. Requests served one at a time never touch the record of an
    identity other than their own: after any sequence of requests none of
    which is counted under [ip], the record of [ip] is what it was - its
    count, its reset time, or its absence. *)
Theorem other_identities_untouched
    (st : Store) (ip : string) (rqs : list Request) :
  reachable st ->
  Forall (λ rq, client_key rq ≠ ip) rqs ->
  record_of (run st rqs).1 ip = record_of st ip.
Proof.
  intros Hwf%reachable_well_formed. revert st Hwf.
  induction rqs as [|rq rqs IH]; intros st Hwf Hall; [reflexivity|].
  apply Forall_cons in Hall as [Hne Hall]. cbn [run].
  destruct (POST_inv st rq Hwf) as [Hwf1 Hfr].
  specialize (Hfr ip ltac:(congruence)).
  destruct (POST st rq) as [[st1 resp] es]. cbn in Hwf1, Hfr.
  specialize (IH st1 Hwf1 Hall).
  destruct (run st1 rqs) as [st2 resps]. cbn in *. congruence.
Qed.

Lemma other_identities_untouched_witness :
  record_of
    (run (POST empty_store (Sample.from "203.0.113.7" 1000)).1.1
       [Sample.from "198.51.100.2" 2000; Sample.nameless None 3000]).1
    "203.0.113.7"
  = record_of (POST empty_store (Sample.from "203.0.113.7" 1000)).1.1
      "203.0.113.7".
Proof.
  apply (other_identities_untouched
           (POST empty_store (Sample.from "203.0.113.7" 1000)).1.1
           "203.0.113.7"
           [Sample.from "198.51.100.2" 2000; Sample.nameless None 3000]).
  - apply reachable_POST, reachable_empty.
  - repeat constructor; discriminate.
Defined.

Lemma POST_keeps_record st rq ip :
  well_formed st ->
  is_Some (record_of st ip) ->
  is_Some (record_of (POST st rq).1.1 ip).
Proof.
  intros Hwf Hsome.
  destruct (decide (ip = client_key rq)) as [->|Hne].
  - unfold POST, client_key in *.
    destruct (POST_gate_cases st (clientAddress rq) (now rq) Hwf)
      as [[Hnone _]|(l & r & Hl & Hr & Hcases)].
    { rewrite (record_of_None _ _ Hnone) in Hsome. destruct Hsome. discriminate. }
    assert (Hupd : ∀ st1, rateLimitStore st1 !! str_or (clientAddress rq) "unknown" = Some l ->
                          is_Some (heap st1 !! l) ->
                          is_Some (record_of (POST_body st1
                             {| clientIP := str_or (clientAddress rq) "unknown";
                                rateLimit := l |} rq).1.1
                             (str_or (clientAddress rq) "unknown"))).
    { intros st1 Hl1 [r1 Hr1]. destruct (valid_submission rq) eqn:Hv.
      - destruct (POST_body_valid st1
                    (mkPending (str_or (clientAddress rq) "unknown") l) rq Hv)
          as (fd & _ & ->).
        cbn. eexists.
        exact (record_of_update st1
                 (mkPending (str_or (clientAddress rq) "unknown") l) r1 Hr1).
      - destruct (POST_body_store st1
                    (mkPending (str_or (clientAddress rq) "unknown") l) rq Hv)
          as (-> & _).
        exists r1. apply record_of_Some. eauto. }
    destruct Hcases as [(_ & _ & ->)|[(_ & _ & ->)|(_ & ->)]].
    + exact Hsome.
    + apply Hupd; eauto.
    + apply Hupd; [exact Hl|]. cbn. apply lookup_lt_is_Some.
      rewrite length_insert. eapply lookup_lt_Some; eassumption.
  - destruct (POST_inv st rq Hwf) as [_ Hfr]. rewrite Hfr by exact Hne.
    exact Hsome.
Qed.

(** X10. Nothing is ever evicted: a record that is in the store stays in
    the store whatever requests are served after it, one at a time - from
    its own identity or from others, accepted or not, within its window or
    long after. *)
Theorem records_never_removed
    (st : Store) (ip : string) (rqs : list Request) :
  reachable st ->
  is_Some (record_of st ip) ->
  is_Some (record_of (run st rqs).1 ip).
Proof.
  intros Hwf%reachable_well_formed. revert st Hwf.
  induction rqs as [|rq rqs IH]; intros st Hwf Hsome; [exact Hsome|].
  cbn [run].
  pose proof (POST_keeps_record st rq ip Hwf Hsome) as H1.
  destruct (POST_inv st rq Hwf) as [Hwf1 _].
  destruct (POST st rq) as [[st1 resp] es]. cbn in H1, Hwf1.
  specialize (IH st1 Hwf1 H1).
  destruct (run st1 rqs) as [st2 resps]. exact IH.
Qed.

Lemma records_never_removed_witness :
  is_Some
    (record_of
       (run (POST empty_store (Sample.from "203.0.113.7" 1000)).1.1
          [Sample.request (Some "203.0.113.7") 99999999 Sample.honeypot]).1
       "203.0.113.7").
Proof.
  apply (records_never_removed
           (POST empty_store (Sample.from "203.0.113.7" 1000)).1.1
           "203.0.113.7"
           [Sample.request (Some "203.0.113.7") 99999999 Sample.honeypot]).
  - apply reachable_POST, reachable_empty.
  - eexists. vm_compute. reflexivity.
Defined.

(** X11. The window is fixed, not sliding: a request served while the
    window of its identity is open leaves the reset time as it is,
    whatever the outcome; the count stays, or goes up by one when the
    submission is accepted. *)
Theorem window_not_extended (st : Store) (rq : Request) (r : RateLimit) :
  record_of st (client_key rq) = Some r ->
  now rq <= resetTime r ->
  ∃ r', record_of (POST st rq).1.1 (client_key rq) = Some r'
        ∧ resetTime r' = resetTime r
        ∧ (count r' = count r
           ∨ (count r' = count r + 1
              ∧ (POST st rq).1.2 = success_response)).
Proof.
  intros Hrec Hopen.
  destruct (Z_lt_le_dec (count r) 5) as [Hroom|Hfull].
  - destruct (valid_submission rq) eqn:Hv.
    + destruct (POST_open_valid st rq r Hrec Hopen Hroom Hv)
        as (st' & es & -> & Hr'). cbn. eexists. split; [exact Hr'|].
      cbn. auto.
    + pose proof Hrec as (l & Hl & Hr)%record_of_Some.
      unfold client_key in Hl.
      pose proof (POST_gate_open st (clientAddress rq) (now rq) l r
                    Hl Hr Hopen) as Hg.
      destruct (Z.geb_spec (count r) 5) as [?|_]; [lia|].
      destruct (POST_invalid st rq _ _ Hg Hv) as (-> & _). eauto.
  - rewrite (POST_limited st rq r Hrec Hopen Hfull). cbn. eauto.
Qed.

Lemma window_not_extended_witness :
  ∃ r', record_of
          (POST (POST empty_store (Sample.from "203.0.113.7" 1000)).1.1
                (Sample.from "203.0.113.7" 3000000)).1.1
          (client_key (Sample.from "203.0.113.7" 3000000)) = Some r'
        ∧ resetTime r' = 3601000.
Proof.
  destruct (window_not_extended
              (POST empty_store (Sample.from "203.0.113.7" 1000)).1.1
              (Sample.from "203.0.113.7" 3000000)
              {| count := 1; resetTime := 3601000 |})
    as (r' & Hr' & Ht & _).
  - vm_compute. reflexivity.
  - vm_compute. discriminate.
  - exists r'. split; [exact Hr'|exact Ht].
Defined.

Lemma POST_gate_Forall (P : RateLimit -> Prop) st addr t st1 out :
  POST_gate st addr t = (st1, out) ->
  P {| count := 0; resetTime := t + window |} ->
  Forall P (heap st) ->
  Forall P (heap st1).
Proof.
  unfold POST_gate. intros Hg H0 Hall.
  destruct (rateLimitStore st !! str_or addr "unknown") as [l|];
    cbn zeta in Hg;
    repeat match type of Hg with
           | context [if ?c then _ else _] => destruct c
           end;
    injection Hg as <- _; cbn;
    repeat first [ apply Forall_insert | apply Forall_app_2
                 | apply Forall_cons_2 | apply Forall_nil_2 ];
    assumption.
Qed.

(** Served one at a time, requests keep every count that was ever
    allocated between 0 and 5. *)
Lemma reachable_counts st :
  reachable st -> Forall (λ r, 0 <= count r <= 5) (heap st).
Proof.
  induction 1 as [|st rq _ IH]; [constructor|].
  unfold POST.
  destruct (POST_gate st (clientAddress rq) (now rq)) as [st1 out] eqn:Hg.
  pose proof (POST_gate_Forall (λ r, 0 <= count r <= 5) _ _ _ _ _ Hg
                ltac:(cbn; lia) IH) as H1.
  destruct out as [resp|p]; [exact H1|].
  pose proof (POST_gate_room _ _ _ _ _ Hg) as Hroom.
  destruct (valid_submission rq) eqn:Hv.
  - destruct (POST_body_valid st1 p rq Hv) as (fd & _ & ->). cbn.
    apply Forall_insert; [exact H1|]. cbn.
    destruct (heap st1 !! rateLimit p) as [r0|] eqn:Hr0.
    + rewrite (list_lookup_total_correct _ _ _ Hr0) in Hroom |- *.
      rewrite Forall_lookup in H1. specialize (H1 _ _ Hr0). cbn in H1. lia.
    + rewrite list_lookup_total_alt, Hr0. cbn. lia.
  - destruct (POST_body_store st1 p rq Hv) as (-> & _). exact H1.
Qed.

(** X12. Served one at a time, requests keep every stored count between 0
    and 5. *)
Theorem count_within_bounds (st : Store) (ip : string) (r : RateLimit) :
  reachable st ->
  record_of st ip = Some r ->
  0 <= count r <= 5.
Proof.
  intros Hall%reachable_counts (l & _ & Hr)%record_of_Some.
  rewrite Forall_lookup in Hall. exact (Hall l r Hr).
Qed.

Lemma count_within_bounds_witness :
  0 <= count {| count := 5; resetTime := 3601000 |} <= 5.
Proof.
  apply (count_within_bounds
           (run empty_store (replicate 7 (Sample.from "203.0.113.7" 1000))).1
           "203.0.113.7").
  - apply reachable_run, reachable_empty.
  - vm_compute. reflexivity.
Defined.

(** ** The keyword check *)

Lemma startsWith_prefix k : ∀ t,
  JsString.startsWith k t = true -> ∃ post, t = k +:+ post.
Proof.
  induction k as [|a k IH]; intros t H.
  - exists t. reflexivity.
  - destruct t as [|b t]; [discriminate|]. simpl in H.
    apply andb_true_iff in H as [Hab Hk]. apply Ascii.eqb_eq in Hab as ->.
    destruct (IH t Hk) as [post ->]. exists post. reflexivity.
Qed.

Lemma includes_inv t k : JsString.includes t k = true -> occurs k t.
Proof.
  induction t as [|c t IH]; simpl; intros H.
  - rewrite orb_false_r in H. apply startsWith_prefix in H as [post ->].
    exists "", post. reflexivity.
  - apply orb_true_iff in H as [H|H].
    + apply startsWith_prefix in H as [post ->]. exists "", post. reflexivity.
    + destruct (IH H) as (pre & post & ->). exists (String c pre), post.
      reflexivity.
Qed.

(** X13. The keyword check is a plain substring search on the lowered
    text: it fires exactly when one of the five keywords occurs somewhere
    in [`${message} ${company || ''} ${firstName} ${lastName}`] after
    [toLowerCase()] - inside a longer word or across the blank between two
    fields as well. *)
Theorem keyword_check_exact (data : ContactFormData) :
  containsSpam data = true
  <-> ∃ keyword,
        In keyword ["casino"; "viagra"; "porn"; "gambling"; "crypto mining"]
        ∧ occurs keyword (JsString.toLowerCase (content data)).
Proof.
  unfold containsSpam, contentToCheck. rewrite existsb_exists. split.
  - intros (k & Hin & Hinc). exists k. split; [exact Hin|].
    apply includes_inv, Hinc.
  - intros (k & Hin & Hocc). exists k. split; [exact Hin|].
    apply includes_occurs, Hocc.
Qed.

(** X14. An attachment that arrives as a text field rather than a file
    is not validated at all: a submission that reaches the file validation
    with a string under [attachment] is accepted, whatever the string. *)
Theorem text_attachment_not_validated
    (st : Store) (rq : Request) (fd : FormData) (text : string) :
  passes_gate st rq ->
  formData rq = Some fd ->
  reaches_file_validation (parse_data fd) ->
  attachment (parse_data fd) = Some (FString text) ->
  (POST st rq).1.2 = success_response
  ∧ has_attachment (parse_data fd) = false.
Proof.
  intros (st1 & p & Hg) Hfd (Hw & Hm & He & Hs) Ha.
  rewrite (POST_parsed st rq st1 p fd Hg Hfd Hw), Hm, He, Hs. cbn [negb].
  unfold file_validation, has_attachment. rewrite Ha. auto.
Qed.

Lemma text_attachment_not_validated_witness :
  (POST empty_store
     (Sample.request (Some "203.0.113.7") 1000
        (Sample.inquiry ++ [("attachment", FString "malware.exe")]))).1.2
  = success_response.
Proof.
  apply (text_attachment_not_validated empty_store
           (Sample.request (Some "203.0.113.7") 1000
              (Sample.inquiry ++ [("attachment", FString "malware.exe")]))
           (Sample.inquiry ++ [("attachment", FString "malware.exe")])
           "malware.exe").
  - eexists _, _. reflexivity.
  - reflexivity.
  - repeat split.
  - reflexivity.
Defined.

(** ** Handlers that overlap *)

(** X15. Two valid first submissions of one identity whose handlers
    overlap - both past the gate before either body has been read - are
    both confirmed, but each has created a record of its own and the
    second replaces the first: the store ends with a count of 1, not 2,
    and with the window of the second. *)
Theorem overlapping_first_submissions_counted_once
    (st : Store) (a b : Request) :
  rateLimitStore st !! client_key a = None ->
  client_key b = client_key a ->
  valid_submission a = true ->
  valid_submission b = true ->
  ∃ st2,
    overlapped st a b = Some (st2, success_response, success_response)
    ∧ record_of st2 (client_key a)
      = Some {| count := 1; resetTime := now b + window |}.
Proof.
  unfold client_key. intros Hnone Hkey Hva Hvb. unfold overlapped.
  rewrite (POST_gate_absent st (clientAddress a) (now a) Hnone).
  rewrite (POST_gate_absent _ (clientAddress b) (now b))
    by (cbn; rewrite Hkey; exact Hnone).
  cbn [heap rateLimitStore].
  match goal with
  | |- context [POST_body ?s ?p a] =>
      destruct (POST_body_valid s p a Hva) as (fda & _ & ->)
  end.
  match goal with
  | |- context [POST_body ?s ?p b] =>
      destruct (POST_body_valid s p b Hvb) as (fdb & _ & ->)
  end.
  eexists. split; [reflexivity|].
  rewrite <- Hkey.
  refine (record_of_update _ (mkPending _ _) (mkRateLimit 0 _) _).
  cbn. rewrite list_lookup_insert_ne by (rewrite length_app; cbn; lia).
  apply list_lookup_middle. reflexivity.
Qed.

Lemma overlapping_first_submissions_counted_once_witness :
  ∃ st2,
    overlapped empty_store (Sample.from "203.0.113.7" 1000)
      (Sample.from "203.0.113.7" 1001)
    = Some (st2, success_response, success_response)
    ∧ record_of st2 (client_key (Sample.from "203.0.113.7" 1000))
      = Some {| count := 1;
                resetTime := now (Sample.from "203.0.113.7" 1001) + window |}.
Proof.
  apply (overlapping_first_submissions_counted_once empty_store
           (Sample.from "203.0.113.7" 1000) (Sample.from "203.0.113.7" 1001));
    reflexivity.
Defined.

(** X16. Two valid submissions of one identity whose handlers overlap
    inside an open window with a count below 5 are both let through on
    the count that the first of them found, both are confirmed, and both
    raise the same stored record: the count ends two higher, which from 4
    is 6. *)
Theorem overlapping_submissions_both_admitted
    (st : Store) (a b : Request) (r : RateLimit) :
  record_of st (client_key a) = Some r ->
  client_key b = client_key a ->
  now a <= resetTime r ->
  now b <= resetTime r ->
  count r < 5 ->
  valid_submission a = true ->
  valid_submission b = true ->
  ∃ st2,
    overlapped st a b = Some (st2, success_response, success_response)
    ∧ record_of st2 (client_key a)
      = Some {| count := count r + 2; resetTime := resetTime r |}.
Proof.
  unfold client_key.
  intros (l & Hl & Hr)%record_of_Some Hkey Ha Hb Hroom Hva Hvb.
  unfold overlapped.
  rewrite (POST_gate_open st (clientAddress a) (now a) l r Hl Hr Ha).
  destruct (Z.geb_spec (count r) 5) as [?|_]; [lia|].
  rewrite (POST_gate_open st (clientAddress b) (now b) l r
             ltac:(rewrite Hkey; exact Hl) Hr Hb).
  destruct (Z.geb_spec (count r) 5) as [?|_]; [lia|].
  match goal with
  | |- context [POST_body ?s ?p a] =>
      destruct (POST_body_valid s p a Hva) as (fda & _ & ->)
  end.
  match goal with
  | |- context [POST_body ?s ?p b] =>
      destruct (POST_body_valid s p b Hvb) as (fdb & _ & ->)
  end.
  eexists. split; [reflexivity|].
  rewrite <- Hkey.
  etrans;
    [refine (record_of_update _ (mkPending _ l)
               (mkRateLimit (count r + 1) (resetTime r)) _)|].
  - cbn. rewrite (list_lookup_total_correct _ _ _ Hr).
    apply list_lookup_insert_eq. eapply lookup_lt_Some; eassumption.
  - cbn. f_equal. f_equal. lia.
Qed.

Lemma overlapping_submissions_both_admitted_witness :
  ∃ st2,
    overlapped
      (run empty_store (replicate 4 (Sample.from "203.0.113.7" 1000))).1
      (Sample.from "203.0.113.7" 5000) (Sample.from "203.0.113.7" 5001)
    = Some (st2, success_response, success_response)
    ∧ record_of st2 (client_key (Sample.from "203.0.113.7" 5000))
      = Some {| count := 4 + 2; resetTime := 3601000 |}.
Proof.
  apply (overlapping_submissions_both_admitted
           (run empty_store (replicate 4 (Sample.from "203.0.113.7" 1000))).1
           (Sample.from "203.0.113.7" 5000) (Sample.from "203.0.113.7" 5001)
           {| count := 4; resetTime := 3601000 |}).
  - vm_compute. reflexivity.
  - reflexivity.
  - vm_compute. discriminate.
  - vm_compute. discriminate.
  - vm_compute. reflexivity.
  - reflexivity.
  - reflexivity.
Defined.

(** ** The service worker: what is cached *)

Lemma matches_any_star s : matches (Regex.Star ServiceWorker.any) s.
Proof.
  induction s as [|c s IH]; [constructor|].
  exact (matches_star_more _ (String c "") s
           (matches_class (λ _, true) c eq_refl) IH).
Qed.

Lemma matches_lit w s : matches (ServiceWorker.lit w) s <-> s = w.
Proof.
  revert s. induction w as [|c w IH]; intros s; simpl.
  - split; [inversion 1; reflexivity|intros ->; constructor].
  - rewrite matches_seq_inv. split.
    + intros (s1 & s2 & -> & ->%matches_chr & ->%IH). reflexivity.
    + intros ->. exists (String c ""), w.
      split; [reflexivity|]. split; [apply matches_chr|apply IH]; reflexivity.
Qed.

Lemma matches_one_of ws s : matches (ServiceWorker.one_of ws) s <-> In s ws.
Proof.
  induction ws as [|w ws IH]; simpl.
  - split; [inversion 1|contradiction].
  - split.
    + inversion 1; subst; [left; symmetry; apply matches_lit; assumption|].
      right. apply IH. assumption.
    + intros [<-|H]; [apply matches_alt_l, matches_lit; reflexivity|].
      apply matches_alt_r, IH, H.
Qed.

Lemma test_starts_with w s :
  Regex.test (ServiceWorker.starts_with w) s = true
  <-> ∃ post, s = w +:+ post.
Proof.
  rewrite test_matches. unfold ServiceWorker.starts_with.
  rewrite matches_seq_inv. split.
  - intros (s1 & s2 & -> & ->%matches_lit & _). eauto.
  - intros (post & ->). exists w, post.
    split; [reflexivity|]. split; [apply matches_lit; reflexivity|].
    apply matches_any_star.
Qed.

Lemma test_ends_with_extension exts s :
  Regex.test (ServiceWorker.ends_with_extension exts) s = true
  <-> ∃ pre ext, In ext exts ∧ s = pre +:+ "." +:+ ext.
Proof.
  rewrite test_matches. unfold ServiceWorker.ends_with_extension.
  rewrite matches_seq_inv. split.
  - intros (pre & s2 & -> & _ & (d & ext & -> & ->%matches_chr
                                 & Hin%matches_one_of)%matches_seq_inv).
    eauto.
  - intros (pre & ext & Hin & ->). exists pre, ("." +:+ ext).
    split; [reflexivity|]. split; [apply matches_any_star|].
    apply matches_seq_inv. exists ".", ext.
    split; [reflexivity|]. split; [apply matches_chr; reflexivity|].
    apply matches_one_of, Hin.
Qed.

Lemma shouldCache_cases u :
  ServiceWorker.shouldCache u = true ->
  (∃ post, u = "https://fonts.googleapis.com/" +:+ post)
  ∨ (∃ post, u = "https://fonts.gstatic.com/" +:+ post)
  ∨ (∃ pre ext, In ext cached_extensions ∧ u = pre +:+ "." +:+ ext).
Proof.
  unfold ServiceWorker.shouldCache, ServiceWorker.DYNAMIC_CACHE_PATTERNS.
  cbn [existsb]. rewrite orb_false_r, !orb_true_iff.
  rewrite !test_starts_with, !test_ends_with_extension.
  unfold cached_extensions.
  intros [H|[H|[(pre & ext & Hin & ->)|(pre & ext & Hin & ->)]]]; auto;
    right; right; exists pre, ext; (split; [|reflexivity]);
    cbn in Hin |- *; tauto.
Qed.

(** X17. A URL is one the worker caches on request exactly when it
    starts with [https://fonts.googleapis.com/] or
    [https://fonts.gstatic.com/] or ends with a dot and one of png, jpg,
    jpeg, svg, gif, webp, ico, js, css.  The ending is that of the whole
    URL, so an asset addressed with a query string after its name is not
    among them. *)
Theorem cached_on_request (u : string) :
  ServiceWorker.shouldCache u = true
  <-> (∃ post, u = "https://fonts.googleapis.com/" +:+ post)
      ∨ (∃ post, u = "https://fonts.gstatic.com/" +:+ post)
      ∨ (∃ pre ext, In ext cached_extensions ∧ u = pre +:+ "." +:+ ext).
Proof.
  split; [apply shouldCache_cases|].
  unfold ServiceWorker.shouldCache, ServiceWorker.DYNAMIC_CACHE_PATTERNS.
  cbn [existsb]. rewrite orb_false_r, !orb_true_iff.
  rewrite !test_starts_with, !test_ends_with_extension.
  unfold cached_extensions.
  intros [H|[H|(pre & ext & Hin & ->)]]; auto.
  cbn in Hin.
  destruct Hin as [<-|[<-|[<-|[<-|[<-|[<-|[<-|[<-|[<-|[]]]]]]]]]];
    first [ right; right; left; eexists _, _; split; [|reflexivity];
            cbn; tauto
          | right; right; right; eexists _, _; split; [|reflexivity];
            cbn; tauto ].
Qed.

(** Two words that both start a third: one of them starts the other. *)
Lemma startsWith_comparable a : ∀ b u,
  JsString.startsWith a u = true ->
  JsString.startsWith b u = true ->
  JsString.startsWith a b = true ∨ JsString.startsWith b a = true.
Proof.
  induction a as [|x a IH]; intros b u Ha Hb.
  - left. reflexivity.
  - destruct b as [|y b]; [right; reflexivity|].
    destruct u as [|z u]; [discriminate|]. simpl in *.
    apply andb_true_iff in Ha as [Hxz Ha], Hb as [Hyz Hb].
    apply Ascii.eqb_eq in Hxz, Hyz. subst.
    rewrite Ascii.eqb_refl. cbn. eauto.
Qed.

Lemma startsWith_append w post : JsString.startsWith w (w +:+ post) = true.
Proof. apply startsWith_app. Qed.

(** X18. The worker puts a response into the cache only when the request
    is a GET whose URL starts with the string [self.location.origin], the
    cache did not answer it, the network answered with status 200 and type
    basic, and the URL is one of those cached on request.  The test of the
    origin is a test of the first characters of the URL and no more.  When
    neither the origin nor one of the two font prefixes starts the other,
    such a URL starts with neither font prefix, so it is one that ends
    with one of the nine extensions. *)
Theorem cache_put_guarded
    (origin : string) (request : ServiceWorker.FetchRequest)
    (cachedResponse network offlinePage response : option ServiceWorker.NetResponse) :
  ServiceWorker.onFetch origin request cachedResponse network offlinePage
  = ServiceWorker.RespondWith response true ->
  (ServiceWorker.method request = "GET"
   ∧ JsString.startsWith origin (ServiceWorker.url request) = true
   ∧ cachedResponse = None
   ∧ network = response
   ∧ (∃ r, response = Some r
           ∧ ServiceWorker.status r = 200 ∧ ServiceWorker.type r = "basic")
   ∧ ServiceWorker.shouldCache (ServiceWorker.url request) = true)
  ∧ (JsString.startsWith origin "https://fonts.googleapis.com/" = false ->
     JsString.startsWith "https://fonts.googleapis.com/" origin = false ->
     JsString.startsWith origin "https://fonts.gstatic.com/" = false ->
     JsString.startsWith "https://fonts.gstatic.com/" origin = false ->
     ∃ pre ext, In ext cached_extensions
                ∧ ServiceWorker.url request = pre +:+ "." +:+ ext).
Proof.
  unfold ServiceWorker.onFetch.
  destruct (String.eqb_spec (ServiceWorker.method request) "GET") as [Hm|];
    [|discriminate].
  destruct (JsString.startsWith origin (ServiceWorker.url request)) eqn:Ho;
    [|discriminate].
  cbn [negb].
  destruct cachedResponse as [cached|]; [discriminate|].
  destruct network as [r|].
  - destruct (Z.eqb_spec (ServiceWorker.status r) 200) as [Hst|];
      [|discriminate].
    destruct (String.eqb_spec (ServiceWorker.type r) "basic") as [Hty|];
      [|discriminate].
    cbn [negb orb]. intros [= <- Hc]. split; [repeat split; eauto|].
    intros Hg1 Hg2 Hs1 Hs2.
    apply shouldCache_cases in Hc as [(post & Hu)|[(post & Hu)|H]];
      [exfalso..|exact H].
    + pose proof (startsWith_append "https://fonts.googleapis.com/" post) as Hf.
      rewrite <- Hu in Hf.
      destruct (startsWith_comparable _ _ _ Ho Hf); congruence.
    + pose proof (startsWith_append "https://fonts.gstatic.com/" post) as Hf.
      rewrite <- Hu in Hf.
      destruct (startsWith_comparable _ _ _ Ho Hf); congruence.
  - destruct (String.eqb _ "navigate"); discriminate.
Qed.

Lemma cache_put_guarded_witness :
  ServiceWorker.shouldCache "https://eexperts.info/logo.svg" = true
  ∧ ∃ pre ext, In ext cached_extensions
               ∧ "https://eexperts.info/logo.svg" = pre +:+ "." +:+ ext.
Proof.
  destruct (cache_put_guarded "https://eexperts.info"
       {| ServiceWorker.method := "GET";
          ServiceWorker.url := "https://eexperts.info/logo.svg";
          ServiceWorker.mode := "no-cors" |}
       None
       (Some {| ServiceWorker.status := 200; ServiceWorker.type := "basic";
                ServiceWorker.body := "<svg/>" |})
       None
       (Some {| ServiceWorker.status := 200; ServiceWorker.type := "basic";
                ServiceWorker.body := "<svg/>" |})
       eq_refl) as [(_ & _ & _ & _ & _ & Hc) Hext].
  split; [exact Hc|]. apply Hext; reflexivity.
Defined.

(** The test of the origin looks at the first characters only: a URL of
    another host whose name begins with the name of the site passes it. *)
Example origin_is_tested_as_prefix :
  ServiceWorker.onFetch "https://eexperts.info"
    {| ServiceWorker.method := "GET";
       ServiceWorker.url := "https://eexperts.info.evil.example/x.js";
       ServiceWorker.mode := "no-cors" |}
    None
    (Some {| ServiceWorker.status := 200; ServiceWorker.type := "basic";
             ServiceWorker.body := "" |})
    None
  = ServiceWorker.RespondWith
      (Some {| ServiceWorker.status := 200; ServiceWorker.type := "basic";
               ServiceWorker.body := "" |}) true.
Proof. reflexivity. Qed.

(** ** The service worker: the size of the cache *)

Lemma filter_none {A} (f : A -> bool) (l : list A) :
  (∀ x, In x l -> f x = false) -> List.filter f l = [].
Proof.
  induction l as [|x l IH]; intros H; [reflexivity|]. cbn.
  rewrite (H x (or_introl eq_refl)). apply IH. intros y Hy. apply H.
  right. exact Hy.
Qed.

Lemma filter_all {A} (f : A -> bool) (l : list A) :
  (∀ x, In x l -> f x = true) -> List.filter f l = l.
Proof.
  induction l as [|x l IH]; intros H; [reflexivity|]. cbn.
  rewrite (H x (or_introl eq_refl)). f_equal. apply IH. intros y Hy.
  apply H. right. exact Hy.
Qed.

Lemma filter_oldest {A} `{EqDecision A} (old new : list A) :
  (∀ x, x ∈ new -> x ∉ old) ->
  List.filter (λ k, negb (bool_decide (k ∈ old))) (old ++ new) = new.
Proof.
  intros Hdisj. rewrite List.filter_app, filter_none, filter_all.
  - reflexivity.
  - intros x Hx%list_elem_of_In. apply negb_true_iff, bool_decide_eq_false.
    apply Hdisj, Hx.
  - intros x Hx%list_elem_of_In. apply negb_false_iff, bool_decide_eq_true.
    exact Hx.
Qed.

(** X19. A cache holds no two entries that match the same request, so its
    keys are distinct.  On such a cache the cleanup leaves a cache of at
    most 100 entries alone and cuts a larger one down to exactly its 100
    newest entries, in their order; running it again changes nothing. *)
Theorem cleanup_keeps_newest (requests : list ServiceWorker.CacheKey) :
  NoDup requests ->
  ServiceWorker.cleanupCache requests
  = drop (length requests - 100) requests
  ∧ length (ServiceWorker.cleanupCache requests)
    = Nat.min (length requests) 100
  ∧ ServiceWorker.cleanupCache (ServiceWorker.cleanupCache requests)
    = ServiceWorker.cleanupCache requests.
Proof.
  intros Hnd.
  assert (Heq : ServiceWorker.cleanupCache requests
                = drop (length requests - 100) requests).
  { unfold ServiceWorker.cleanupCache.
    destruct (Nat.ltb_spec 100 (length requests)) as [Hbig|Hsmall].
    - cbn zeta. set (n := (length requests - 100)%nat).
      rewrite <- (take_drop n requests) in Hnd.
      apply NoDup_app in Hnd as (_ & Hdisj & _).
      etrans;
        [apply (f_equal (List.filter _)); symmetry; apply (take_drop n)|].
      apply filter_oldest. intros x Hnew Hold. exact (Hdisj x Hold Hnew).
    - replace (length requests - 100)%nat with 0%nat by lia. reflexivity. }
  assert (Hlen : length (ServiceWorker.cleanupCache requests)
                 = Nat.min (length requests) 100).
  { rewrite Heq, length_drop. lia. }
  split; [exact Heq|]. split; [exact Hlen|].
  unfold ServiceWorker.cleanupCache at 1.
  destruct (Nat.ltb_spec 100 (length (ServiceWorker.cleanupCache requests)));
    [lia|reflexivity].
Qed.

Lemma cleanup_keeps_newest_witness :
  ServiceWorker.cleanupCache (Sample.cache_keys 103)
  = drop 3 (Sample.cache_keys 103)
  ∧ length (ServiceWorker.cleanupCache (Sample.cache_keys 103)) = 100%nat.
Proof.
  destruct (cleanup_keeps_newest (Sample.cache_keys 103)) as (Heq & Hlen & _).
  - apply (bool_decide_unpack _). vm_compute. exact I.
  - split; [exact Heq|exact Hlen].
Defined.

(** ** When a submission is accepted *)

(** X20. The confirmation is given exactly when the request has passed
    the gate and the submission is valid - parsed, honeypot empty, the
    five required fields present, the address well formed, no keyword, the
    attachment allowed; and then the identity has a record with a count of
    at least 1 in the store, provided the store is one that requests
    served one at a time have led to. *)
Theorem accepted_exactly_when_valid (st : Store) (rq : Request) :
  reachable st ->
  ((POST st rq).1.2 = success_response
   <-> passes_gate st rq ∧ valid_submission rq = true)
  ∧ ((POST st rq).1.2 = success_response ->
     ∃ r, record_of (POST st rq).1.1 (client_key rq) = Some r
          ∧ 1 <= count r <= 5).
Proof.
  intros Hreach.
  assert (Hiff : (POST st rq).1.2 = success_response
                 <-> passes_gate st rq ∧ valid_submission rq = true).
  { split.
    - unfold passes_gate, POST.
      destruct (POST_gate st (clientAddress rq) (now rq))
        as [st1 [resp|p]] eqn:Hg.
      + apply POST_gate_inl in Hg as ->. discriminate.
      + intros Hresp. split; [eauto|].
        destruct (valid_submission rq) eqn:Hv; [reflexivity|].
        destruct (POST_body_store st1 p rq Hv) as (_ & Hne & _).
        contradiction.
    - intros [Hpass Hv].
      destruct (POST_valid st rq Hpass Hv) as (fd & _ & Hresp & _).
      exact Hresp. }
  split; [exact Hiff|].
  intros [(st1 & p & Hg) Hv]%Hiff.
  pose proof (reachable_well_formed st Hreach) as Hwf.
  destruct (POST_gate_inv _ _ _ _ _ Hg Hwf) as (_ & _ & _ & [Hlt _] & Hkey).
  pose proof (POST_gate_room _ _ _ _ _ Hg) as Hroom.
  destruct (lookup_lt_is_Some_2 _ _ Hlt) as [r0 Hr0].
  rewrite (list_lookup_total_correct _ _ _ Hr0) in Hroom.
  assert (Hlow : 0 <= count r0).
  { assert (Hall : Forall (λ r, 0 <= count r) (heap st1)).
    { apply (POST_gate_Forall (λ r, 0 <= count r) _ _ _ _ _ Hg);
        [cbn; lia|].
      apply Forall_lookup. intros i r Hi.
      pose proof (reachable_counts st Hreach) as Hall0.
      rewrite Forall_lookup in Hall0. specialize (Hall0 i r Hi).
      cbn in Hall0. lia. }
    rewrite Forall_lookup in Hall. exact (Hall _ _ Hr0). }
  unfold POST. rewrite Hg.
  destruct (POST_body_valid st1 p rq Hv) as (fd & _ & ->). cbn.
  unfold client_key. rewrite <- Hkey.
  rewrite (record_of_update st1 p r0 Hr0). eexists. split; [reflexivity|].
  cbn. lia.
Qed.

Lemma accepted_exactly_when_valid_witness :
  ∃ r, record_of (POST empty_store (Sample.from "203.0.113.7" 1000)).1.1
         (client_key (Sample.from "203.0.113.7" 1000)) = Some r
       ∧ 1 <= count r <= 5.
Proof.
  apply (accepted_exactly_when_valid empty_store
           (Sample.from "203.0.113.7" 1000)).
  - exact reachable_empty.
  - reflexivity.
Defined.

(** ** The window when handlers overlap *)

(** Two overlapping handlers are one way the process can run. *)
Lemma serves_overlapped st a b resps st2 respA respB :
  serves {| shared := st; inflight := [] |} resps ->
  overlapped st a b = Some (st2, respA, respB) ->
  serves {| shared := st2; inflight := [] |} (resps ++ [respA; respB]).
Proof.
  intros Hs. unfold overlapped.
  destruct (POST_gate st (clientAddress a) (now a)) as [stA [?|pA]] eqn:HA;
    [discriminate|].
  destruct (POST_gate stA (clientAddress b) (now b)) as [stB [?|pB]] eqn:HB;
    [discriminate|].
  destruct (POST_body stB pA a) as [[st1 rA] esA] eqn:HA'.
  destruct (POST_body st1 pB b) as [[st2' rB] esB] eqn:HB'.
  intros [= <- <- <-].
  pose proof (serves_suspended {| shared := st; inflight := [] |}
                _ _ _ _ _ Hs HA) as H1.
  pose proof (serves_suspended _ _ _ _ _ _ H1 HB) as H2.
  pose proof (serves_resumed _ _ 1 pA a _ _ _ H2 eq_refl HA') as H3.
  pose proof (serves_resumed _ _ 0 pB b _ _ _ H3 eq_refl HB') as H4.
  cbn in H4. rewrite <- app_assoc in H4. exact H4.
Qed.

(** C1. The sixth submission inside the window is not always answered
    with HTTP 429.  The count is checked before
    [await request.formData()] and written after it, so when the first
    two submissions of an identity overlap, each starts a record of its
    own and the store ends with a count of 1 for two accepted
    submissions; four more valid submissions, each served alone and all
    within the hour, are then confirmed as well: six submissions in one
    window, six times HTTP 200, and a stored count of 5. *)
Theorem sixth_submission_confirmed_after_overlap :
  ∃ st2,
    overlapped empty_store
      (Sample.from "203.0.113.7" 1000) (Sample.from "203.0.113.7" 1001)
    = Some (st2, success_response, success_response)
    ∧ (run st2 [Sample.from "203.0.113.7" 2000; Sample.from "203.0.113.7" 3000;
                Sample.from "203.0.113.7" 4000; Sample.from "203.0.113.7" 5000]).2
      = replicate 4 success_response
    ∧ r_status success_response = 200
    ∧ Forall (λ rq, client_key rq = "203.0.113.7"
                    ∧ valid_submission rq = true
                    ∧ now rq <= 1000 + window)
        [Sample.from "203.0.113.7" 1000; Sample.from "203.0.113.7" 1001;
         Sample.from "203.0.113.7" 2000; Sample.from "203.0.113.7" 3000;
         Sample.from "203.0.113.7" 4000; Sample.from "203.0.113.7" 5000]
    ∧ record_of
        (run st2 [Sample.from "203.0.113.7" 2000;
                  Sample.from "203.0.113.7" 3000;
                  Sample.from "203.0.113.7" 4000;
                  Sample.from "203.0.113.7" 5000]).1 "203.0.113.7"
      = Some {| count := 5; resetTime := 3601001 |}
    ∧ serves
        {| shared :=
             (run st2 [Sample.from "203.0.113.7" 2000;
                       Sample.from "203.0.113.7" 3000;
                       Sample.from "203.0.113.7" 4000;
                       Sample.from "203.0.113.7" 5000]).1;
           inflight := [] |}
        (replicate 6 success_response).
Proof.
  set (rest := [Sample.from "203.0.113.7" 2000; Sample.from "203.0.113.7" 3000;
                Sample.from "203.0.113.7" 4000; Sample.from "203.0.113.7" 5000]).
  destruct (overlapped empty_store (Sample.from "203.0.113.7" 1000)
              (Sample.from "203.0.113.7" 1001))
    as [[[st2 respA] respB]|] eqn:Ho; [|vm_compute in Ho; discriminate].
  pose proof (serves_overlapped _ _ _ [] _ _ _ serves_initial Ho) as H1.
  pose proof (serves_run rest st2 _ H1) as H2.
  vm_compute in Ho. injection Ho as <- <- <-.
  eexists. split; [reflexivity|].
  match type of H2 with
  | serves _ (_ ++ (run ?st rest).2) =>
      assert (Hr : (run st rest).2 = replicate 4 success_response)
        by (vm_compute; reflexivity)
  end.
  rewrite Hr in H2.
  split; [exact Hr|]. split; [reflexivity|].
  split; [repeat constructor; vm_compute; discriminate|].
  split; [vm_compute; reflexivity|exact H2].
Qed.

(** C10. Clients without address are counted under "unknown" and share
    one record, but the record does not always stop the sixth of them.
    When the first two such clients overlap - one with no address, one
    with an empty address - each starts a record of its own and the store
    ends with a count of 1; after three more accepted submissions of such
    clients five have been accepted and the count is 4, so a sixth client
    without address, arriving later in the same window and served alone,
    is answered with HTTP 200. *)
Theorem sixth_anonymous_client_admitted_after_overlap :
  ∃ st2,
    overlapped empty_store
      (Sample.nameless None 1000) (Sample.nameless (Some "") 1001)
    = Some (st2, success_response, success_response)
    ∧ (run st2 [Sample.nameless None 2000; Sample.nameless (Some "") 3000;
                Sample.nameless None 4000]).2
      = replicate 3 success_response
    ∧ record_of
        (run st2 [Sample.nameless None 2000; Sample.nameless (Some "") 3000;
                  Sample.nameless None 4000]).1 "unknown"
      = Some {| count := 4; resetTime := 3601001 |}
    ∧ anonymous (Sample.nameless None 5000)
    ∧ now (Sample.nameless None 5000) <= 3601001
    ∧ (POST (run st2 [Sample.nameless None 2000;
                      Sample.nameless (Some "") 3000;
                      Sample.nameless None 4000]).1
            (Sample.nameless None 5000)).1.2 = success_response
    ∧ r_status success_response = 200.
Proof.
  destruct (overlapped empty_store (Sample.nameless None 1000)
              (Sample.nameless (Some "") 1001))
    as [[[st2 respA] respB]|] eqn:Ho; [|vm_compute in Ho; discriminate].
  vm_compute in Ho. injection Ho as <- <- <-.
  eexists. split; [reflexivity|].
  split; [vm_compute; reflexivity|].
  split; [vm_compute; reflexivity|].
  split; [left; reflexivity|].
  split; [vm_compute; discriminate|].
  split; [vm_compute; reflexivity|reflexivity].
Qed.
